(** * tv-room: wall layout and first-person camera controls

    A shallow embedding of the two algorithmic parts of the repository:

    - [ExhibitionScene.addVintageTVWall] (src/exhibition/ExhibitionScene.ts),
      the random greedy packer that hangs the televisions on the four walls,
      together with the part of the [VintageTV] constructor
      (src/objects/VintageTV.ts) that draws from [Math.random];
    - [FPSCameraControls] (src/controls/FPSCameraControls.ts), the pointer-lock
      state, the mouse look and the per-frame integrator.

    Numbers.  A JavaScript [number] is an IEEE double.  The embedding
    idealises it as an exact number: a rational ([Q]) in the layout code,
    which only adds, subtracts, multiplies, halves, floors and compares
    decimal constants and random draws, and a real ([R]) in the controller,
    which needs square roots, [Math.PI] and the trigonometry behind
    three.js quaternions.  Rounding, infinities and NaN are outside the model.

    Randomness.  [Math.random()] is an oracle: a stream [nat -> Q] that the
    program reads through a cursor.  The contract of [Math.random]
    (every draw lies in [[0,1)]) is the predicate [unit_draws]; the
    definitions do not assume it, and an array indexed outside its range
    yields [undefined] as in JavaScript. *)

From Stdlib Require Import QArith Qabs Qround Reals Psatz RNsatz List.
From stdpp Require Import gmap strings.

(** ** JavaScript helpers *)

Module JS.

Open Scope Q_scope.

(** [a < b] on numbers, as a boolean. *)
Definition ltb (a b : Q) : bool := negb (Qle_bool b a).

(** [a > b]. *)
Definition gtb (a b : Q) : bool := ltb b a.

(** [arr[i]] for an integer-valued index: [undefined] outside the array. *)
Definition index {A : Type} (arr : list A) (i : Z) : option A :=
  if (i <? 0)%Z then None else arr !! Z.to_nat i.

(** [Math.floor]. *)
Definition floor (a : Q) : Z := Qfloor a.

(** [Math.abs]. *)
Definition abs (a : Q) : Q := Qabs a.

End JS.

(** ** Effects: the random source, the scene under construction, exceptions *)

Module Eff.

Inductive error : Type :=
| TypeError   (* a property of [undefined] was read, or [undefined] was called *)
| OutOfFuel.  (* the model of a [while] loop ran out of fuel *)

Inductive outcome (S A : Type) : Type :=
| Ok (a : A) (s : S)
| Threw (e : error).
Arguments Ok {S A} a s.
Arguments Threw {S A} e.

Section Monad.
Context {S : Type}.

Definition M (A : Type) : Type := S -> outcome S A.

Definition ret {A} (a : A) : M A := fun s => Ok a s.

Definition bind {A B} (m : M A) (k : A -> M B) : M B :=
  fun s => match m s with
           | Ok a s' => k a s'
           | Threw e => Threw e
           end.

Definition throw {A} (e : error) : M A := fun _ => Threw e.

Definition get : M S := fun s => Ok s s.

Definition modify (f : S -> S) : M unit := fun s => Ok tt (f s).

(** [while (cond) body], with the number of completed iterations as a
    ghost result.  The loop throws [OutOfFuel] when the condition still
    holds after [fuel] iterations. *)
Fixpoint while (fuel : nat) {T} (cond : T -> bool) (body : T -> M T)
         (t : T) (trips : nat) : M (T * nat) :=
  if cond t then
    match fuel with
    | O => throw OutOfFuel
    | Datatypes.S fuel' =>
        bind (body t) (fun t' => while fuel' cond body t' (Datatypes.S trips))
    end
  else ret (t, trips).

(** [m] started in [s] returns normally, and its result and final state
    satisfy [Q]. *)
Definition post {A} (m : M A) (s : S) (Q : A -> S -> Prop) : Prop :=
  match m s with
  | Ok a s' => Q a s'
  | Threw _ => False
  end.

End Monad.

Arguments M : clear implicits.

End Eff.

Import Eff.

#[global] Instance M_ret {S} : MRet (M S) := fun A => @ret S A.
#[global] Instance M_bind {S} : MBind (M S) := fun A B k m => @bind S A B m k.

(** ** src/objects/VintageTV.ts *)

Module VintageTV.

Open Scope Q_scope.

Inductive Size : Type := small | medium | large.
Inductive KnobPosition : Type := bottom | right | left.

(** [interface TVDesign].  A field read from an array outside its range
    holds [undefined], here [None]. *)
Record TVDesign : Type := {
  name : Z;                       (* the number in the name "TV-<n>" *)
  size : option Size;
  casingColor : option Z;
  hasWoodGrain : bool;
  woodColor : Z;
  knobColor : option Z;
  knobPosition : option KnobPosition
}.

Record Casing : Type := { casing_width : Q; casing_height : Q; casing_depth : Q }.

(** The state a constructor call works on: the cursor into the stream of
    random draws. *)
Section WithRandom.
Variable rand : nat -> Q.

(** [Math.random()]. *)
Definition random : M nat Q := fun k => Ok (rand k) (S k).

Definition colors : list Z :=
  [0xffd700; 0xff4444; 0xff8800; 0xc0c0c0; 0x444444; 0x8b4513; 0xf5deb3; 0xf8f8ff]%Z.
Definition knobColors : list Z :=
  [0x444444; 0x222222; 0x333333; 0x666666; 0x888888]%Z.
Definition sizes : list Size := [small; medium; large].
Definition positions : list KnobPosition := [bottom; right; left].

(** [arr[Math.floor(Math.random() * arr.length)]]. *)
Definition pick {A} (arr : list A) : M nat (option A) :=
  r ← random;
  mret (JS.index arr (JS.floor (r * inject_Z (Z.of_nat (length arr))))).

Definition getRandomDesign : M nat TVDesign :=
  r ← random;
  s ← pick sizes;
  c ← pick colors;
  g ← random;
  kc ← pick knobColors;
  kp ← pick positions;
  mret {| name := JS.floor (r * 1000);
         size := s;
         casingColor := c;
         hasWoodGrain := JS.gtb g 0.7;
         woodColor := 0x654321;
         knobColor := kc;
         knobPosition := kp |}.

(** [getSizeDimensions(size).casing]: [dimensions[undefined]] is
    [undefined], and reading [.casing] from it throws. *)
Definition getSizeDimensions (s : option Size) : M nat Casing :=
  match s with
  | Some small => mret {| casing_width := 0.8; casing_height := 0.6; casing_depth := 0.2 |}
  | Some medium => mret {| casing_width := 1.0; casing_height := 0.75; casing_depth := 0.25 |}
  | Some large => mret {| casing_width := 1.2; casing_height := 0.9; casing_depth := 0.3 |}
  | None => throw TypeError
  end.

(** [createControlKnobs]: one draw for the number of knobs; the loop body
    calls [positions[this.design.knobPosition]], which throws when the
    knob position is [undefined] and the loop runs at least once. *)
Definition createControlKnobs (d : TVDesign) : M nat Z :=
  r ← random;
  let knobCount := (JS.floor (r * 2) + 1)%Z in
  if (0 <? knobCount)%Z then
    match knobPosition d with
    | Some _ => mret knobCount
    | None => throw TypeError
    end
  else mret knobCount.

(** [new VintageTV()]: the random design, then the model.  The video
    element and the meshes are not modelled; the draws are. *)
Definition new : M nat TVDesign :=
  d ← getRandomDesign;
  getSizeDimensions (size d);;
  createControlKnobs d;;
  mret d.

End WithRandom.

(** The table of [getSizeDimensions]: the casing and the screen
    [(width, height)] of a size. *)
Definition casing (s : Size) : Casing :=
  match s with
  | small => {| casing_width := 0.8; casing_height := 0.6; casing_depth := 0.2 |}
  | medium => {| casing_width := 1.0; casing_height := 0.75; casing_depth := 0.25 |}
  | large => {| casing_width := 1.2; casing_height := 0.9; casing_depth := 0.3 |}
  end.

Definition screen (s : Size) : Q * Q :=
  match s with
  | small => (0.6, 0.45)
  | medium => (0.8, 0.6)
  | large => (1.0, 0.75)
  end.

(** Lines 109-113 and 120-121: where knob [i] goes on a casing, as
    [(x, y, rot)] with [rot] in units of [Math.PI]. *)
Definition knobPlace (c : Casing) (p : KnobPosition) (i : Z) : Q * Q * Q :=
  match p with
  | bottom => (- casing_width c * 0.3 + inject_Z i * 0.15, - casing_height c * 0.4, 0)
  | right => (casing_width c * 0.4, - casing_height c * 0.3 + inject_Z i * 0.1, 1 / 2)
  | left => (- casing_width c * 0.4, - casing_height c * 0.3 + inject_Z i * 0.1, - (1 / 2))
  end.

(** The knobs of lines 115-124, for a loop that runs [knobCount] times. *)
Definition knobs (c : Casing) (p : KnobPosition) (knobCount : Z) : list (Q * Q * Q) :=
  map (fun i => knobPlace c p (Z.of_nat i)) (seq 0 (Z.to_nat knobCount)).

End VintageTV.

(** ** src/exhibition/ExhibitionScene.ts *)

Module ExhibitionScene.

Open Scope Q_scope.

(** An entry of [sizeConfigs]. *)
Module Config.
Record t : Type := mk { width : Q; height : Q }.
End Config.

(** An entry of [placedTVs]. *)
Module Placed.
Record t : Type := mk { x : Q; y : Q; width : Q; height : Q }.
End Placed.

Inductive WallName : Type := back | front | left | right.

(** An entry of [walls]; [rot] is kept in units of [Math.PI]. *)
Record Wall : Type := { name : WallName; pos : Q * Q * Q; rot : Q }.

(** The local constants of [addVintageTVWall], and the bound of its
    [for (tries ...)] loop. *)
Record Constants : Type := {
  roomSize : Q;
  wallHeight : Q;
  wallDepth : Q;
  maxTVsPerWall : nat;
  maxAttempts : nat;
  maxTries : nat
}.

(** Their values in the source. *)
Definition source : Constants :=
  {| roomSize := 15; wallHeight := 8; wallDepth := 7.5;
     maxTVsPerWall := 10; maxAttempts := 100; maxTries := 50 |}.

Definition sizeConfigs (s : VintageTV.Size) : Config.t :=
  match s with
  | VintageTV.small => Config.mk 0.8 0.6
  | VintageTV.medium => Config.mk 1.0 0.8
  | VintageTV.large => Config.mk 1.2 0.9
  end.

Definition sizes : list VintageTV.Size :=
  [VintageTV.small; VintageTV.medium; VintageTV.large].

(** A television added to the scene: what [tvGroup.position.set],
    [tvGroup.rotation.y] and [tvGroup.scale.set] receive. *)
Record TVObject : Type := {
  design : VintageTV.TVDesign;
  position : Q * Q * Q;
  rotationY : Q;
  scale : Q
}.

(** The state the layout runs in: the cursor into the random draws and
    [this.vintageTVs] (to which [galleryObjects] and the scene graph are
    parallel). *)
Record Scene : Type := { cursor : nat; vintageTVs : list TVObject }.

(** The variables of the [while] loop of one wall. *)
Record WallLoop : Type := {
  placedTVs : list Placed.t;
  tvIndex : nat;
  attempts : nat
}.

(** What the [for (tries ...)] loop leaves behind. *)
Record Found : Type := {
  foundPosition : bool;
  bestX : Q;
  bestY : Q;
  tries : nat
}.

Definition isSideWall (wall : Wall) : bool :=
  match name wall with left | right => true | _ => false end.

(** Lines 101-109: the candidate against every placed television. *)
Fixpoint canPlace (x y : Q) (config : Config.t) (placedTVs : list Placed.t) : bool :=
  match placedTVs with
  | [] => true
  | placedTV :: rest =>
      let overlapX :=
        JS.ltb (JS.abs (x - Placed.x placedTV))
               ((Config.width config + Placed.width placedTV) / 2) in
      let overlapY :=
        JS.ltb (JS.abs (y - Placed.y placedTV))
               ((Config.height config + Placed.height placedTV) / 2) in
      if overlapX && overlapY then false else canPlace x y config rest
  end.

Section WithRandom.
Variable rand : nat -> Q.
Variable C : Constants.

(** A computation on the random cursor, run inside the scene. *)
Definition lift {A} (m : M nat A) : M Scene A :=
  fun s => match m (cursor s) with
           | Ok a k => Ok a {| cursor := k; vintageTVs := vintageTVs s |}
           | Threw e => Threw e
           end.

Definition random : M Scene Q := lift (VintageTV.random rand).

(** Lines 94-96: the [x] of a try, from its draw [r]. *)
Definition anchorX (side : bool) (config : Config.t) (r : Q) : Q :=
  if side
  then r * (wallHeight C - Config.height config) + Config.height config / 2
  else (r - 0.5) * (roomSize C - Config.width config).

(** Lines 97-99: the [y] of a try, from its draw [r]. *)
Definition anchorY (side : bool) (config : Config.t) (r : Q) : Q :=
  if side
  then (r - 0.5) * (roomSize C - Config.width config)
  else r * (wallHeight C - Config.height config) + Config.height config / 2.

(** The anchor sampled by the [j]-th try of a [for] loop entered with
    the cursor at [k]. *)
Definition tryAnchor (side : bool) (config : Config.t) (k j : nat) : Q * Q :=
  (anchorX side config (rand (k + 2 * j)),
   anchorY side config (rand (k + 2 * j + 1))).

Definition sampleX (side : bool) (config : Config.t) : M Scene Q :=
  r ← random; mret (anchorX side config r).

Definition sampleY (side : bool) (config : Config.t) : M Scene Q :=
  r ← random; mret (anchorY side config r).

(** Lines 88-117, the [for (let tries = 0; tries < 50; tries++)] loop with
    its [break]; [remaining] is the number of iterations still allowed
    and [tries] the loop variable. *)
Fixpoint findPosition (remaining tries : nat) (side : bool) (config : Config.t)
         (placedTVs : list Placed.t) : M Scene Found :=
  match remaining with
  | O => mret {| foundPosition := false; bestX := 0; bestY := 0; tries := tries |}
  | S remaining' =>
      x ← sampleX side config;
      y ← sampleY side config;
      if canPlace x y config placedTVs
      then mret {| foundPosition := true; bestX := x; bestY := y; tries := tries |}
      else findPosition remaining' (S tries) side config placedTVs
  end.

(** [baseDims[design.size] || 1.0]. *)
Definition baseDims (s : option VintageTV.Size) : Q :=
  match s with
  | Some VintageTV.small => 1.0
  | Some VintageTV.medium => 1.25
  | Some VintageTV.large => 1.5
  | None => 1.0
  end.

(** Lines 128-133. *)
Definition worldPosition (wall : Wall) (bestX bestY : Q) : Q * Q * Q :=
  let side := isSideWall wall in
  let '(px, py, pz) := pos wall in
  (px + (if side then 0 else bestX),
   py + bestX * (if side then 1 else 0) + bestY * (if side then 0 else 1),
   pz + (if side then bestY else 0)).

Definition pushTV (tv : TVObject) : M Scene unit :=
  modify (fun s => {| cursor := cursor s; vintageTVs := vintageTVs s ++ [tv] |}).

(** Lines 84-140, one iteration of the [while] loop.  An [undefined]
    [config] makes the first read of [config.height] or [config.width]
    throw. *)
Definition wallBody (wall : Wall) (st : WallLoop) : M Scene WallLoop :=
  let attempts' := S (attempts st) in
  randomSize ← lift (VintageTV.pick rand sizes);
  match randomSize with
  | None => throw TypeError
  | Some sz =>
      let config := sizeConfigs sz in
      f ← findPosition (maxTries C) 0 (isSideWall wall) config (placedTVs st);
      if negb (foundPosition f)
      then mret {| placedTVs := placedTVs st; tvIndex := tvIndex st;
                   attempts := attempts' |}
      else
        d ← lift (VintageTV.new rand);
        pushTV {| design := d;
                  position := worldPosition wall (bestX f) (bestY f);
                  rotationY := rot wall;
                  scale := baseDims (VintageTV.size d) |};;
        mret {| placedTVs := placedTVs st ++
                             [Placed.mk (bestX f) (bestY f)
                                        (Config.width config) (Config.height config)];
                tvIndex := S (tvIndex st);
                attempts := attempts' |}
  end.

(** [tvIndex < maxTVsPerWall && attempts < maxAttempts]. *)
Definition wallCond (st : WallLoop) : bool :=
  (tvIndex st <? maxTVsPerWall C)%nat && (attempts st <? maxAttempts C)%nat.

(** Lines 79-141: the callback of [walls.forEach].  The result is the
    loop's final variables and the number of iterations it made. *)
Definition layoutWall (fuel : nat) (wall : Wall) : M Scene (WallLoop * nat) :=
  while fuel wallCond (wallBody wall)
        {| placedTVs := []; tvIndex := 0; attempts := 0 |} 0%nat.

Definition backWall : Wall :=
  {| name := back;  pos := (0, 0, - wallDepth C + 0.1); rot := 0 |}.
Definition frontWall : Wall :=
  {| name := front; pos := (0, 0, wallDepth C - 0.1);   rot := 1 |}.
Definition leftWall : Wall :=
  {| name := left;  pos := (- wallDepth C + 0.1, 0, 0); rot := 1 / 2 |}.
Definition rightWall : Wall :=
  {| name := right; pos := (wallDepth C - 0.1, 0, 0);   rot := - (1 / 2) |}.

Definition walls : list Wall := [backWall; frontWall; leftWall; rightWall].

Fixpoint forEach {A B} (f : A -> M Scene B) (l : list A) : M Scene (list B) :=
  match l with
  | [] => mret []
  | a :: l' => b ← f a; bs ← forEach f l'; mret (b :: bs)
  end.

(** [addVintageTVWall], up to the timers that start the videos. *)
Definition addVintageTVWall (fuel : nat) : M Scene (list (WallLoop * nat)) :=
  forEach (layoutWall fuel) walls.

End WithRandom.

(** A random source that always draws 0. *)
Definition zeroDraws : nat -> Q := fun _ => 0.

(** A random source under which every attempt succeeds on its first try,
    ten draws per attempt: slot 0 picks the size, slots 1 and 2 the anchor,
    the other seven go to [new VintageTV()].  The back and the front wall
    take ten small televisions spread along the wall.  The left wall
    (attempts 20 to 29) first takes two medium televisions at [(4, 0)] and
    [(4, 0.9)], then small ones spread along the wall, and so does the right
    wall. *)
Definition packedDraws (k : nat) : Q :=
  let attempt := (k / 10)%nat in
  let slot := (k mod 10)%nat in
  let spread := inject_Z (Z.of_nat (attempt mod 10)) / 10 in
  match attempt, slot with
  | 20%nat, (0 | 1 | 2)%nat => 0.5
  | 21%nat, (0 | 1)%nat => 0.5
  | 21%nat, 2%nat => 79 # 140
  | _, 1%nat => if (attempt <? 20)%nat then spread else 0
  | _, 2%nat => if (attempt <? 20)%nat then 0 else spread
  | _, _ => 0
  end.

Definition emptyScene : Scene := {| cursor := 0; vintageTVs := [] |}.

(** The contract of [Math.random]. *)
Definition unit_draws (rand : nat -> Q) : Prop :=
  forall k, 0 <= rand k /\ rand k < 1.

(** The condition of section 3 of the specification, on two entries of
    [placedTVs]. *)
Definition separated (a b : Placed.t) : Prop :=
  (Placed.width a + Placed.width b) / 2 <= Qabs (Placed.x a - Placed.x b) \/
  (Placed.height a + Placed.height b) / 2 <= Qabs (Placed.y a - Placed.y b).

(** The no-overlap invariant on the televisions recorded for one wall. *)
Definition noOverlap (l : list Placed.t) : Prop :=
  forall (i j : nat) (a b : Placed.t),
    i <> j -> l !! i = Some a -> l !! j = Some b -> separated a b.

(** The candidate of size [config] anchored at [(x, y)]. *)
Definition candidate (x y : Q) (config : Config.t) : Placed.t :=
  Placed.mk x y (Config.width config) (Config.height config).

(** What one iteration of the [while] loop does to the loop variables and
    to the scene: the attempt is counted, and either nothing else changes
    or one television, separated from all those placed, is recorded. *)
Definition iteration (C : Constants) (st : WallLoop) (s : Scene)
           (st' : WallLoop) (s' : Scene) : Prop :=
  attempts st' = S (attempts st) /\
  ((placedTVs st' = placedTVs st /\ tvIndex st' = tvIndex st /\
    vintageTVs s' = vintageTVs s /\ (maxTries C = 0%nat \/ placedTVs st <> []))
   \/
   (exists p tv, placedTVs st' = placedTVs st ++ [p] /\
      Forall (separated p) (placedTVs st) /\
      tvIndex st' = S (tvIndex st) /\
      vintageTVs s' = vintageTVs s ++ [tv])).

(** The state of a wall's loop after [n] iterations, in a scene that held
    [len0] televisions when the loop began. *)
Definition wallInv (C : Constants) (len0 : nat) (st : WallLoop) (n : nat)
           (s : Scene) : Prop :=
  attempts st = n /\
  (attempts st <= maxAttempts C)%nat /\
  (tvIndex st <= maxTVsPerWall C)%nat /\
  (tvIndex st <= attempts st)%nat /\
  length (placedTVs st) = tvIndex st /\
  noOverlap (placedTVs st) /\
  length (vintageTVs s) = (len0 + tvIndex st)%nat /\
  ((1 <= attempts st)%nat -> (1 <= maxTries C)%nat -> (1 <= tvIndex st)%nat).

(** The televisions placed over a list of wall results. *)
Definition placedCount (rs : list (WallLoop * nat)) : nat :=
  foldr (fun r n => (tvIndex (fst r) + n)%nat) 0%nat rs.

(** What holds of a wall when its loop has ended. *)
Definition wallDone (C : Constants) (r : WallLoop * nat) : Prop :=
  snd r = attempts (fst r) /\
  (snd r <= maxAttempts C)%nat /\
  (tvIndex (fst r) <= maxTVsPerWall C)%nat /\
  length (placedTVs (fst r)) = tvIndex (fst r) /\
  noOverlap (placedTVs (fst r)) /\
  (tvIndex (fst r) <? maxTVsPerWall C)%nat && (attempts (fst r) <? maxAttempts C)%nat = false /\
  ((1 <= maxTries C)%nat -> (1 <= maxAttempts C)%nat -> (1 <= maxTVsPerWall C)%nat ->
   (1 <= tvIndex (fst r))%nat).


(** The region lines 94-99 draw an anchor from, for a footprint of the
    size of [p]: on a front or back wall [x] runs along the wall and [y] up
    the wall; on a side wall [x] runs up the wall and [y] along it. *)
Definition insideWall (C : Constants) (side : bool) (p : Placed.t) : Prop :=
  if side
  then Placed.height p / 2 <= Placed.x p /\
       Placed.x p <= wallHeight C - Placed.height p / 2 /\
       - ((roomSize C - Placed.width p) / 2) <= Placed.y p /\
       Placed.y p <= (roomSize C - Placed.width p) / 2
  else - ((roomSize C - Placed.width p) / 2) <= Placed.x p /\
       Placed.x p <= (roomSize C - Placed.width p) / 2 /\
       Placed.height p / 2 <= Placed.y p /\
       Placed.y p <= wallHeight C - Placed.height p / 2.

(** A footprint of one of the three size classes, anchored where two draws
    of [[0,1)] put it. *)
Definition sampledFootprint (C : Constants) (side : bool) (p : Placed.t) : Prop :=
  exists sz r1 r2,
    (0 <= r1 /\ r1 < 1) /\ (0 <= r2 /\ r2 < 1) /\
    p = candidate (anchorX C side (sizeConfigs sz) r1)
                  (anchorY C side (sizeConfigs sz) r2) (sizeConfigs sz).

(** The television [tv] is the scene object made for the footprint [p] of
    [wall] (lines 121-134). *)
Definition mounted (wall : Wall) (p : Placed.t) (tv : TVObject) : Prop :=
  position tv = worldPosition wall (Placed.x p) (Placed.y p) /\
  rotationY tv = rot wall /\
  is_Some (VintageTV.size (design tv)) /\
  scale tv = baseDims (VintageTV.size (design tv)).

(** [tv] hangs on one of the four walls of [C], at a sampled footprint. *)
Definition hung (C : Constants) (tv : TVObject) : Prop :=
  exists wall p,
    In wall (walls C) /\ sampledFootprint C (isSideWall wall) p /\ mounted wall p tv.

(** The loop variables of a wall and the scene stay in step: the scene has
    gained one mounted television per recorded footprint, in order. *)
Definition wallMounted (C : Constants) (wall : Wall) (tvs0 : list TVObject)
           (st : WallLoop) (s : Scene) : Prop :=
  Forall (sampledFootprint C (isSideWall wall)) (placedTVs st) /\
  exists tvs, vintageTVs s = tvs0 ++ tvs /\
              Forall2 (mounted wall) (placedTVs st) tvs.

(** A television as the scene shows it: the width and height of its casing
    times the scale that [tvGroup.scale.set(scale, scale, 1)] applies. *)
Definition renderedSize (tv : TVObject) : option (Q * Q) :=
  match VintageTV.size (design tv) with
  | Some sz => Some (VintageTV.casing_width (VintageTV.casing sz) * scale tv,
                     VintageTV.casing_height (VintageTV.casing sz) * scale tv)
  | None => None
  end.

(** Where a television of footprint [w] by [h] sits in the room of the
    source: at a height that keeps the footprint between floor and ceiling,
    and on one of the four planes 0.1 inside a wall, turned to face the
    room, with the footprint between the wall's two ends. *)
Definition onWallPlane (tv : TVObject) (w h : Q) : Prop :=
  let '(X, Y, Z) := position tv in
  (h / 2 <= Y /\ Y <= 8 - h / 2) /\
  ((Qeq Z (-7.4) /\ Qeq (rotationY tv) 0 /\
    - ((15 - w) / 2) <= X /\ X <= (15 - w) / 2) \/
   (Qeq Z 7.4 /\ Qeq (rotationY tv) 1 /\
    - ((15 - w) / 2) <= X /\ X <= (15 - w) / 2) \/
   (Qeq X (-7.4) /\ Qeq (rotationY tv) (1 # 2) /\
    - ((15 - w) / 2) <= Z /\ Z <= (15 - w) / 2) \/
   (Qeq X 7.4 /\ Qeq (rotationY tv) (- (1 # 2)) /\
    - ((15 - w) / 2) <= Z /\ Z <= (15 - w) / 2)).

(** The variables of a wall's loop when it starts. *)
Definition freshWall : WallLoop := {| placedTVs := []; tvIndex := 0; attempts := 0 |}.

(** A random source that packs the first television with the footprint of
    [szPack] and builds it with the design size [szBuilt]. *)
Definition sizeIndex (sz : VintageTV.Size) : Q :=
  match sz with
  | VintageTV.small => 0
  | VintageTV.medium => 1 # 3
  | VintageTV.large => 2 # 3
  end.

Definition twoSizeDraws (szPack szBuilt : VintageTV.Size) (k : nat) : Q :=
  match k with
  | 0%nat => sizeIndex szPack
  | 4%nat => sizeIndex szBuilt
  | _ => 0
  end.

(** The delay, in milliseconds after [addVintageTVWall], at which the
    timers of lines 145-151 call [playVideo] on the television of index
    [index] in [this.vintageTVs]; the list is read when the outer timer
    fires, and is taken here as the layout left it. *)
Definition startDelay (index : nat) : Z := (2000 + Z.of_nat index * 200)%Z.

Definition playbackSchedule (s : Scene) : list (Z * TVObject) :=
  imap (fun index tv => (startDelay index, tv)) (vintageTVs s).

End ExhibitionScene.

(** ** three.js: the part of [Vector3], [Euler] and [Quaternion] the
    controller calls (formulas of the library's math classes) *)

Module Three.

Open Scope R_scope.

Record Vector3 : Type := vec { x : R; y : R; z : R }.

Definition add (a b : Vector3) : Vector3 := vec (x a + x b) (y a + y b) (z a + z b).
Definition sub (a b : Vector3) : Vector3 := vec (x a - x b) (y a - y b) (z a - z b).
Definition multiplyScalar (a : Vector3) (s : R) : Vector3 := vec (x a * s) (y a * s) (z a * s).
Definition divideScalar (a : Vector3) (s : R) : Vector3 := multiplyScalar a (1 / s).
Definition length (a : Vector3) : R := sqrt (x a * x a + y a * y a + z a * z a).

(** [v || 1] on a number. *)
Definition orOne (v : R) : R := if Req_dec_T v 0 then 1 else v.

(** [normalize()] is [divideScalar(length() || 1)]: the zero vector stays. *)
Definition normalize (a : Vector3) : Vector3 := divideScalar a (orOne (length a)).

Definition setY (a : Vector3) (v : R) : Vector3 := vec (x a) v (z a).

Inductive EulerOrder : Type := XYZ | YXZ.
Record Euler : Type := { ex : R; ey : R; ez : R; order : EulerOrder }.
Record Quaternion : Type := quat { qx : R; qy : R; qz : R; qw : R }.

(** [Quaternion.setFromEuler], for the two orders the camera takes. *)
Definition setFromEuler (e : Euler) : Quaternion :=
  let c1 := cos (ex e / 2) in
  let c2 := cos (ey e / 2) in
  let c3 := cos (ez e / 2) in
  let s1 := sin (ex e / 2) in
  let s2 := sin (ey e / 2) in
  let s3 := sin (ez e / 2) in
  match order e with
  | XYZ => quat (s1 * c2 * c3 + c1 * s2 * s3) (c1 * s2 * c3 - s1 * c2 * s3)
                (c1 * c2 * s3 + s1 * s2 * c3) (c1 * c2 * c3 - s1 * s2 * s3)
  | YXZ => quat (s1 * c2 * c3 + c1 * s2 * s3) (c1 * s2 * c3 - s1 * c2 * s3)
                (c1 * c2 * s3 - s1 * s2 * c3) (c1 * c2 * c3 + s1 * s2 * s3)
  end.

(** [Vector3.applyQuaternion]. *)
Definition applyQuaternion (v : Vector3) (q : Quaternion) : Vector3 :=
  let tx := 2 * (qy q * z v - qz q * y v) in
  let ty := 2 * (qz q * x v - qx q * z v) in
  let tz := 2 * (qx q * y v - qy q * x v) in
  vec (x v + qw q * tx + qy q * tz - qz q * ty)
      (y v + qw q * ty + qz q * tx - qx q * tz)
      (z v + qw q * tz + qx q * ty - qy q * tx).

(** The camera: its position and its rotation; [camera.quaternion] is kept
    equal to [setFromEuler camera.rotation] by the library. *)
Record Camera : Type := { position : Vector3; rotation : Euler }.

Definition quaternion (c : Camera) : Quaternion := setFromEuler (rotation c).

End Three.

(** ** src/controls/FPSCameraControls.ts *)

Module FPSCameraControls.

Import Three.
Open Scope R_scope.

Record Bounds : Type := {
  minX : R; maxX : R; minZ : R; maxZ : R; minY : R; maxY : R
}.

(** [Partial<Bounds>], the argument of [setBounds]. *)
Record PartialBounds : Type := {
  p_minX : option R; p_maxX : option R; p_minZ : option R;
  p_maxZ : option R; p_minY : option R; p_maxY : option R
}.

(** The fields of the class that change; [moveSpeed], [lookSpeed] and
    [friction] are assigned once and are constants below. *)
Record State : Type := {
  camera : Camera;
  keys : gmap string bool;
  isPointerLocked : bool;
  pitch : R;
  yaw : R;
  velocity : Vector3;
  acceleration : Vector3;
  bounds : Bounds
}.

Definition moveSpeed : R := 0.01.
Definition lookSpeed : R := 0.0002.
Definition friction : R := 0.95.
Definition maxVelocity : R := 0.08.

(** The host: which element holds the pointer lock, the event types on
    which a handler of this controller is registered, and the pointer-lock
    calls made so far. *)
Inductive Element : Type := domElement | otherElement.
Inductive HostCall : Type := RequestPointerLock | ExitPointerLock.

Record Host : Type := {
  pointerLockElement : option Element;
  listeners : gset string;
  calls : list HostCall
}.

Definition addEventListener (type : string) (h : Host) : Host :=
  {| pointerLockElement := pointerLockElement h;
     listeners := {[ type ]} ∪ listeners h;
     calls := calls h |}.

Definition removeEventListener (type : string) (h : Host) : Host :=
  {| pointerLockElement := pointerLockElement h;
     listeners := listeners h ∖ {[ type ]};
     calls := calls h |}.

(** [domElement.requestPointerLock()]: the host answers later, with a
    [pointerlockchange] or a [pointerlockerror] event. *)
Definition requestPointerLock (h : Host) : Host :=
  {| pointerLockElement := pointerLockElement h;
     listeners := listeners h;
     calls := calls h ++ [RequestPointerLock] |}.

(** [document.exitPointerLock()]: the lock is given up. *)
Definition exitPointerLock (h : Host) : Host :=
  {| pointerLockElement := None;
     listeners := listeners h;
     calls := calls h ++ [ExitPointerLock] |}.

(** The state after the constructor, for the camera of core/Camera.ts. *)
Definition initialBounds : Bounds :=
  {| minX := -7; maxX := 7; minZ := -7; maxZ := 7; minY := 1; maxY := 8 |}.

Definition initialCamera : Camera :=
  {| position := vec 0 2 0; rotation := {| ex := 0; ey := 0; ez := 0; order := XYZ |} |}.

Definition initial : State :=
  {| camera := initialCamera; keys := ∅; isPointerLocked := false;
     pitch := 0; yaw := 0; velocity := vec 0 0 0; acceleration := vec 0 0 0;
     bounds := initialBounds |}.

(** [setupEventListeners]. *)
Definition setupEventListeners (h : Host) : Host :=
  addEventListener "contextmenu"
    (addEventListener "pointerlockerror"
      (addEventListener "pointerlockchange"
        (addEventListener "click"
          (addEventListener "keyup"
            (addEventListener "keydown" h))))).

(** [this.keys[code]], as a condition. *)
Definition held (st : State) (code : string) : bool :=
  match keys st !! code with Some b => b | None => false end.

Definition onClick (st : State) (h : Host) : Host :=
  if negb (isPointerLocked st) then requestPointerLock h else h.

Definition setLocked (st : State) (b : bool) : State :=
  {| camera := camera st; keys := keys st; isPointerLocked := b;
     pitch := pitch st; yaw := yaw st; velocity := velocity st;
     acceleration := acceleration st; bounds := bounds st |}.

Definition isDomElement (e : option Element) : bool :=
  match e with Some domElement => true | _ => false end.

Definition onPointerLockChange (st : State) (h : Host) : State * Host :=
  let locked := isDomElement (pointerLockElement h) in
  (setLocked st locked,
   if locked then addEventListener "mousemove" h
   else removeEventListener "mousemove" h).

Definition onPointerLockError (st : State) : State := st.

Definition setKey (st : State) (code : string) (b : bool) : State :=
  {| camera := camera st; keys := <[ code := b ]> (keys st);
     isPointerLocked := isPointerLocked st;
     pitch := pitch st; yaw := yaw st; velocity := velocity st;
     acceleration := acceleration st; bounds := bounds st |}.

Definition onKeyDown (st : State) (code : string) : State := setKey st code true.
Definition onKeyUp (st : State) (code : string) : State := setKey st code false.

(** [v || 0] on a number. *)
Definition orZero (v : R) : R := if Req_dec_T v 0 then 0 else v.

Definition sensitivity : R := lookSpeed * 50.

(** [Math.max(-Math.PI / 2, Math.min(Math.PI / 2, p))]. *)
Definition clampPitch (p : R) : R := Rmax (- PI / 2) (Rmin (PI / 2) p).

Definition onMouseMove (st : State) (movementX movementY : R) : State :=
  if negb (isPointerLocked st) then st else
  let movementX := orZero movementX in
  let movementY := orZero movementY in
  let yaw' := yaw st - movementX * sensitivity in
  let pitch' := clampPitch (pitch st - movementY * sensitivity) in
  {| camera := {| position := position (camera st);
                  rotation := {| ex := pitch'; ey := yaw';
                                 ez := ez (rotation (camera st)); order := YXZ |} |};
     keys := keys st; isPointerLocked := isPointerLocked st;
     pitch := pitch'; yaw := yaw'; velocity := velocity st;
     acceleration := acceleration st; bounds := bounds st |}.

(** Lines 124-136: the movement basis, [(forward, right)]. *)
Definition movementBasis (q : Quaternion) : Vector3 * Vector3 :=
  let forward := applyQuaternion (vec 0 0 (-1)) q in
  let right := applyQuaternion (vec 1 0 0) q in
  (normalize (setY forward 0), normalize (setY right 0)).

(** Lines 139-160, before the scaling by [moveSpeed]. *)
Definition inputDirection (st : State) (forward right : Vector3) : Vector3 :=
  let a := vec 0 0 0 in
  let a := if held st "KeyW" then add a forward else a in
  let a := if held st "KeyS" then sub a forward else a in
  let a := if held st "KeyA" then sub a right else a in
  let a := if held st "KeyD" then add a right else a in
  let a := if held st "Space" then setY a (y a + 1) else a in
  let a := if held st "ShiftLeft" then setY a (y a - 1) else a in
  a.

(** Lines 166-170. *)
Definition limitVelocity (v : Vector3) : Vector3 :=
  if Rlt_dec maxVelocity (length v)
  then multiplyScalar (normalize v) maxVelocity
  else v.

(** Lines 179-190. *)
Definition applyBounds (b : Bounds) (p : Vector3) : Vector3 :=
  vec (Rmax (minX b) (Rmin (maxX b) (x p)))
      (Rmax (minY b) (Rmin (maxY b) (y p)))
      (Rmax (minZ b) (Rmin (maxZ b) (z p))).

(** The acceleration and the velocity of a tick (lines 124-173). *)
Definition tickAcceleration (st : State) : Vector3 :=
  let basis := movementBasis (quaternion (camera st)) in
  multiplyScalar (inputDirection st (fst basis) (snd basis)) moveSpeed.

Definition tickVelocity (st : State) : Vector3 :=
  multiplyScalar (limitVelocity (add (velocity st) (tickAcceleration st))) friction.

Definition update (st : State) : State :=
  if negb (isPointerLocked st) then st else
  let acceleration' := tickAcceleration st in
  let velocity' := tickVelocity st in
  let newPosition := add (position (camera st)) velocity' in
  let newPosition := applyBounds (bounds st) newPosition in
  {| camera := {| position := newPosition; rotation := rotation (camera st) |};
     keys := keys st; isPointerLocked := isPointerLocked st;
     pitch := pitch st; yaw := yaw st; velocity := velocity';
     acceleration := acceleration'; bounds := bounds st |}.

Definition setBounds (st : State) (p : PartialBounds) : State :=
  let b := bounds st in
  {| camera := camera st; keys := keys st; isPointerLocked := isPointerLocked st;
     pitch := pitch st; yaw := yaw st; velocity := velocity st;
     acceleration := acceleration st;
     bounds := {| minX := default (minX b) (p_minX p); maxX := default (maxX b) (p_maxX p);
                  minZ := default (minZ b) (p_minZ p); maxZ := default (maxZ b) (p_maxZ p);
                  minY := default (minY b) (p_minY p); maxY := default (maxY b) (p_maxY p) |} |}.

Definition getVelocity (st : State) : Vector3 := velocity st.

Definition dispose (st : State) (h : Host) : State * Host :=
  let h := removeEventListener "keydown" h in
  let h := removeEventListener "keyup" h in
  let h := removeEventListener "click" h in
  let h := removeEventListener "pointerlockchange" h in
  let h := removeEventListener "pointerlockerror" h in
  let h := removeEventListener "contextmenu" h in
  let h := removeEventListener "mousemove" h in
  (st, if isPointerLocked st then exitPointerLock h else h).

(** What the host and the render loop can do to a controller. *)
Inductive Event : Type :=
| KeyDown (code : string)
| KeyUp (code : string)
| MouseMove (movementX movementY : R)
| PointerLockChange (h : Host)
| Tick
| SetBounds (p : PartialBounds).

Definition step (st : State) (e : Event) : State :=
  match e with
  | KeyDown code => onKeyDown st code
  | KeyUp code => onKeyUp st code
  | MouseMove dx dy => onMouseMove st dx dy
  | PointerLockChange h => fst (onPointerLockChange st h)
  | Tick => update st
  | SetBounds p => setBounds st p
  end.

(** The states of a controller built on the centred camera. *)
Definition run (es : list Event) : State := fold_left step es initial.

(** A sequence of pointer motions, each a pair [(movementX, movementY)]. *)
Definition look (st : State) (ds : list (R * R)) : State :=
  fold_left (fun st d => onMouseMove st (fst d) (snd d)) ds st.

Definition sumX (ds : list (R * R)) : R := fold_right (fun d a => fst d + a) 0 ds.
Definition sumY (ds : list (R * R)) : R := fold_right (fun d a => snd d + a) 0 ds.

(** [n] calls of [update]. *)
Fixpoint ticks (n : nat) (st : State) : State :=
  match n with
  | O => st
  | S n' => ticks n' (update st)
  end.

(** The rotation [onMouseMove] gives a camera that has no roll. *)
Definition lookRotation (pitch yaw : R) : Euler :=
  {| ex := pitch; ey := yaw; ez := 0; order := YXZ |}.

(** A captured controller at the east bound, still moving east. *)
Definition atEastWall : State :=
  {| camera := {| position := vec 7 2 0; rotation := rotation initialCamera |};
     keys := ∅; isPointerLocked := true;
     pitch := 0; yaw := 0; velocity := vec 0.05 0 0; acceleration := vec 0 0 0;
     bounds := initialBounds |}.

(** The host once the constructor has run, and once it has granted the
    pointer lock to the canvas. *)
Definition initialHost : Host :=
  setupEventListeners {| pointerLockElement := None; listeners := ∅; calls := [] |}.

Definition lockedHost : Host :=
  {| pointerLockElement := Some domElement;
     listeners := listeners initialHost; calls := [RequestPointerLock] |}.

(** The event types on which the controller registers a handler. *)
Definition eventTypes : list string :=
  ["keydown"; "keyup"; "click"; "pointerlockchange"; "pointerlockerror";
   "contextmenu"; "mousemove"]%string.

(** No movement key is down. *)
Definition noKeysHeld (st : State) : Prop :=
  held st "KeyW" = false /\ held st "KeyS" = false /\
  held st "KeyA" = false /\ held st "KeyD" = false /\
  held st "Space" = false /\ held st "ShiftLeft" = false.

(** [isMoving()]. *)
Definition isMoving (st : State) : bool :=
  if Rlt_dec 0.01 (length (velocity st)) then true else false.

(** [{ ...p, ...q }] on two arguments of [setBounds]: the fields of [q] win. *)
Definition mergePartial (p q : PartialBounds) : PartialBounds :=
  {| p_minX := match p_minX q with Some v => Some v | None => p_minX p end;
     p_maxX := match p_maxX q with Some v => Some v | None => p_maxX p end;
     p_minZ := match p_minZ q with Some v => Some v | None => p_minZ p end;
     p_maxZ := match p_maxZ q with Some v => Some v | None => p_maxZ p end;
     p_minY := match p_minY q with Some v => Some v | None => p_minY p end;
     p_maxY := match p_maxY q with Some v => Some v | None => p_maxY p end |}.

(** [{}] as an argument of [setBounds]. *)
Definition noBounds : PartialBounds :=
  {| p_minX := None; p_maxX := None; p_minZ := None;
     p_maxZ := None; p_minY := None; p_maxY := None |}.

(** The position lies within the bounds on every axis. *)
Definition withinBounds (b : Bounds) (p : Vector3) : Prop :=
  minX b <= x p <= maxX b /\ minY b <= y p <= maxY b /\ minZ b <= z p <= maxZ b.

(** [a.dot(b)]. *)
Definition dot (a b : Vector3) : R := x a * x b + y a * y b + z a * z b.

(** The vertical intent of lines 155-160. *)
Definition verticalIntent (st : State) : R :=
  (if held st "Space" then 1 else 0) - (if held st "ShiftLeft" then 1 else 0).

(** What [{ ...this.bounds, ...bounds }] does to one field: a given value
    replaces the old one, a missing one keeps it. *)
Definition updated (old : R) (given : option R) (new : R) : Prop :=
  match given with
  | Some v => new = v
  | None => new = old
  end.

(** A captured controller looking along [-z] with the keys [codes] down. *)
Definition holding (codes : list string) : State :=
  fold_left onKeyDown codes (setLocked initial true).

(** Only the forward key is down. *)
Definition onlyForward (st : State) : Prop :=
  held st "KeyW" = true /\ held st "KeyS" = false /\
  held st "KeyA" = false /\ held st "KeyD" = false /\
  held st "Space" = false /\ held st "ShiftLeft" = false.

(** Lines 163-173 along the forward vector: the speed after a tick that
    began at the forward speed [k] with only the forward key down. *)
Definition walkSpeed (k : R) : R := Rmin (k + moveSpeed) maxVelocity * friction.

End FPSCameraControls.

(** ** src/objects/VintageTV.ts: the video of a television *)

Module Video.

(** The fields the video methods work on, and the calls they make on the
    video element.  [map] says whether [screenMaterial.map] is the video
    texture (otherwise it is [null]). *)
Record State : Type := {
  isPlaying : bool;
  map : bool;
  playCalls : nat;       (* calls of [videoElement.play()] *)
  pauseCalls : nat;      (* calls of [videoElement.pause()] *)
  attached : bool        (* the element is in the document *)
}.

(** After the constructor. *)
Definition initial : State :=
  {| isPlaying := false; map := false; playCalls := 0; pauseCalls := 0; attached := true |}.

(** [playVideo()]: the promise of [play()] settles later. *)
Definition playVideo (st : State) : State :=
  if negb (isPlaying st)
  then {| isPlaying := isPlaying st; map := map st; playCalls := S (playCalls st);
          pauseCalls := pauseCalls st; attached := attached st |}
  else st.

(** The [then] callback of [playVideo]. *)
Definition playResolved (st : State) : State :=
  {| isPlaying := true; map := true; playCalls := playCalls st;
     pauseCalls := pauseCalls st; attached := attached st |}.

(** The [catch] callback of [playVideo]: the error is logged. *)
Definition playRejected (st : State) : State := st.

Definition pauseVideo (st : State) : State :=
  if isPlaying st
  then {| isPlaying := false; map := map st; playCalls := playCalls st;
          pauseCalls := S (pauseCalls st); attached := attached st |}
  else st.

Definition stopVideo (st : State) : State :=
  {| isPlaying := false; map := false; playCalls := playCalls st;
     pauseCalls := S (pauseCalls st); attached := attached st |}.

Definition toggleVideo (st : State) : State :=
  if isPlaying st then pauseVideo st else playVideo st.

Definition forceUpdateVideoTexture (st : State) : State :=
  if isPlaying st
  then {| isPlaying := isPlaying st; map := true; playCalls := playCalls st;
          pauseCalls := pauseCalls st; attached := attached st |}
  else st.

Definition dispose (st : State) : State :=
  let st := stopVideo st in
  {| isPlaying := isPlaying st; map := map st; playCalls := playCalls st;
     pauseCalls := pauseCalls st; attached := false |}.

Inductive Event : Type :=
| PlayVideo | PlayResolved | PlayRejected | PauseVideo | StopVideo | ToggleVideo
| ForceUpdateVideoTexture | Dispose.

Definition step (st : State) (e : Event) : State :=
  match e with
  | PlayVideo => playVideo st
  | PlayResolved => playResolved st
  | PlayRejected => playRejected st
  | PauseVideo => pauseVideo st
  | StopVideo => stopVideo st
  | ToggleVideo => toggleVideo st
  | ForceUpdateVideoTexture => forceUpdateVideoTexture st
  | Dispose => dispose st
  end.

Definition run (es : list Event) : State := fold_left step es initial.

End Video.

(** ** src/App.ts: the render loop and the camera reset
    (with src/utils/PerformanceMonitor.ts) *)

Module App.

Open Scope Q_scope.

(** The fields of the render loop; times are in milliseconds.  [rendered]
    lists the times at which a frame was rendered, latest first. *)
Record Loop : Type := {
  isRunning : bool;
  animationId : option nat;
  lastTime : Q;
  frameInterval : Q;
  fpsControls : FPSCameraControls.State;
  rendered : list Q
}.

(** [animate()], when [requestAnimationFrame] returns [id] and
    [performance.now()] returns [now]. *)
Definition animate (l : Loop) (id : nat) (now : Q) : Loop :=
  if negb (isRunning l) then l else
  if Qle_bool (frameInterval l) (now - lastTime l)
  then {| isRunning := isRunning l; animationId := Some id; lastTime := now;
          frameInterval := frameInterval l;
          fpsControls := FPSCameraControls.update (fpsControls l);
          rendered := now :: rendered l |}
  else {| isRunning := isRunning l; animationId := Some id; lastTime := lastTime l;
          frameInterval := frameInterval l; fpsControls := fpsControls l;
          rendered := rendered l |}.

(** [start()]: [performance.now()] returns [now], then [now'] inside the
    first [animate()]. *)
Definition start (l : Loop) (id : nat) (now now' : Q) : Loop :=
  if isRunning l then l else
  animate {| isRunning := true; animationId := animationId l; lastTime := now;
             frameInterval := frameInterval l; fpsControls := fpsControls l;
             rendered := rendered l |} id now'.

(** [stop()]: [if (this.animationId)] is false for [null] and for the
    handle 0, which then stays. *)
Definition stop (l : Loop) : Loop :=
  {| isRunning := false;
     animationId := match animationId l with
                    | Some 0%nat => Some 0%nat
                    | _ => None
                    end;
     lastTime := lastTime l;
     frameInterval := frameInterval l; fpsControls := fpsControls l;
     rendered := rendered l |}.

(** Frames, each with the id and the time the host gives it. *)
Definition frames (l : Loop) (fs : list (nat * Q)) : Loop :=
  fold_left (fun l f => animate l (fst f) (snd f)) fs l.

(** Consecutive entries of a list of times, latest first, are at least
    [gap] apart, and the earliest is at least [gap] after [origin]. *)
Fixpoint spaced (gap origin : Q) (times : list Q) : Prop :=
  match times with
  | [] => True
  | t :: earlier =>
      gap <= t - match earlier with [] => origin | t' :: _ => t' end /\
      spaced gap origin earlier
  end.

(** What the frames of a loop keep true of it, from a loop that had
    [lastTime = origin] and the controller [c0]. *)
Definition paced (gap origin : Q) (c0 : FPSCameraControls.State) (l : Loop) : Prop :=
  spaced gap origin (rendered l) /\
  lastTime l = match rendered l with [] => origin | t :: _ => t end /\
  frameInterval l = gap /\
  fpsControls l = FPSCameraControls.ticks (length (rendered l)) c0.

(** A running loop with the target of 60 frames per second. *)
Definition freshLoop : Loop :=
  {| isRunning := true; animationId := None; lastTime := 0;
     frameInterval := 1000 / 60; fpsControls := FPSCameraControls.initial;
     rendered := [] |}.


Section Reset.
(** [camera.lookAt(0, 0, 0)] of three.js, which is not modelled: the
    rotation it gives a camera. *)
Variable lookAt : Three.Camera -> Three.Euler.

End Reset.

End App.

Module PerformanceMonitor.

Open Scope Q_scope.

(** [Math.round]. *)
Definition round (a : Q) : Z := Qfloor (a + (1 # 2)).

(** The fields [update] computes itself; memory and render statistics come
    from the host. *)
Record State : Type := {
  fps : Z;
  frameTime : Q;
  frameCount : Z;
  lastTime : Q
}.

Definition initial : State :=
  {| fps := 0; frameTime := 0; frameCount := 0; lastTime := 0 |}.

(** [update], when [performance.now()] returns [currentTime]. *)
Definition update (st : State) (currentTime : Q) : State :=
  let frameCount' := (frameCount st + 1)%Z in
  if Qle_bool 1000 (currentTime - lastTime st)
  then {| fps := round (inject_Z frameCount' * 1000 / (currentTime - lastTime st));
          frameTime := (currentTime - lastTime st) / inject_Z frameCount';
          frameCount := 0;
          lastTime := currentTime |}
  else {| fps := fps st; frameTime := frameTime st;
          frameCount := frameCount'; lastTime := lastTime st |}.

End PerformanceMonitor.

(** * Properties *)

(** ** A small program logic for the effectful code *)

Section Post.
Context {S : Type}.

Lemma post_ok {A} (m : M S A) s (Q : A -> S -> Prop) :
  post m s Q <-> exists a s', m s = Ok a s' /\ Q a s'.
Proof.
  unfold post. destruct (m s) as [a s'|e]; split.
  - intros H. exists a, s'. auto.
  - intros (a0 & s0 & Heq & H). inversion Heq; subst. exact H.
  - intros [].
  - intros (a0 & s0 & Heq & _). discriminate.
Qed.

Lemma post_ret {A} (a : A) s (Q : A -> S -> Prop) :
  Q a s -> post (mret a) s Q.
Proof. intros H. exact H. Qed.

Lemma post_bind {A B} (m : M S A) (k : A -> M S B) s (Q : B -> S -> Prop) :
  post m s (fun a s' => post (k a) s' Q) -> post (m ≫= k) s Q.
Proof.
  unfold post, mbind, M_bind, bind. destruct (m s); auto.
Qed.

Lemma post_mono {A} (m : M S A) s (Q Q' : A -> S -> Prop) :
  post m s Q -> (forall a s', Q a s' -> Q' a s') -> post m s Q'.
Proof.
  unfold post. destruct (m s); auto.
Qed.

Lemma post_modify (f : S -> S) s (Q : unit -> S -> Prop) :
  Q tt (f s) -> post (modify f) s Q.
Proof. intros H. exact H. Qed.

(** The rule of [while]: an invariant [I] on the loop variables, the trip
    count and the state, and a measure that every iteration lowers.  Fuel
    at or above the measure is enough. *)
Lemma post_while {T} (cond : T -> bool) (body : T -> M S T)
      (I : T -> nat -> S -> Prop) (measure : T -> nat) :
  (forall t n s, I t n s -> cond t = true ->
     post (body t) s (fun t' s' => I t' (Datatypes.S n) s' /\ (measure t' < measure t)%nat)) ->
  forall fuel t n s, I t n s -> (measure t <= fuel)%nat ->
    post (while fuel cond body t n) s
         (fun r s' => I (fst r) (snd r) s' /\ cond (fst r) = false).
Proof.
  intros Hbody fuel. induction fuel as [|fuel IH]; intros t n s HI Hm; simpl.
  - destruct (cond t) eqn:Hc.
    + specialize (Hbody t n s HI Hc). unfold post in Hbody.
      destruct (body t s); [|contradiction]. lia.
    + apply post_ret. auto.
  - destruct (cond t) eqn:Hc.
    + unfold post, bind. specialize (Hbody t n s HI Hc). unfold post in Hbody.
      destruct (body t s) as [t' s'|]; [|contradiction].
      destruct Hbody as [HI' Hlt]. apply IH; [exact HI' | lia].
    + apply post_ret. auto.
Qed.

(** More fuel does not change a result. *)
Lemma while_more_fuel {T} (cond : T -> bool) (body : T -> M S T) fuel :
  forall fuel' t n s r s',
    (fuel <= fuel')%nat ->
    while fuel cond body t n s = Ok r s' ->
    while fuel' cond body t n s = Ok r s'.
Proof.
  induction fuel as [|fuel IH]; intros fuel' t n s r s' Hle H; simpl in H.
  - destruct (cond t) eqn:Hc; [discriminate|].
    destruct fuel'; simpl; rewrite Hc; exact H.
  - destruct fuel' as [|fuel']; [lia|]. simpl.
    destruct (cond t) eqn:Hc; [|exact H].
    unfold bind in *. destruct (body t s) as [t' s1|]; [|discriminate].
    apply IH; [lia | exact H].
Qed.

End Post.

(** ** Numbers and array indices *)

Section Numbers.
Open Scope Q_scope.

Lemma ltb_lt (a b : Q) : JS.ltb a b = true <-> a < b.
Proof.
  unfold JS.ltb. rewrite negb_true_iff.
  destruct (Qle_bool b a) eqn:E.
  - apply Qle_bool_iff in E. split; [discriminate | intros H; lra].
  - split; [intros _ | reflexivity].
    destruct (Qlt_le_dec a b) as [H|H]; [exact H|].
    apply Qle_bool_iff in H. congruence.
Qed.

Lemma ltb_ge (a b : Q) : JS.ltb a b = false <-> b <= a.
Proof.
  split; intros H.
  - destruct (Qlt_le_dec a b) as [Hlt|Hle]; [|exact Hle].
    apply ltb_lt in Hlt. congruence.
  - destruct (JS.ltb a b) eqn:E; [|reflexivity].
    apply ltb_lt in E. lra.
Qed.

(** A draw in [[0,1)] scaled by the length of a non-empty array and
    floored is an index of the array. *)
Lemma index_unit_draw {A} (arr : list A) (r : Q) :
  arr <> [] -> 0 <= r /\ r < 1 ->
  is_Some (JS.index arr (JS.floor (r * inject_Z (Z.of_nat (length arr))))).
Proof.
  intros Hne [H0 H1].
  set (n := Z.of_nat (length arr)).
  assert (Hn : (0 < n)%Z) by (destruct arr; [congruence | subst n; simpl; lia]).
  assert (HnQ : 0 < inject_Z n) by (change 0 with (inject_Z 0); rewrite <- Zlt_Qlt; exact Hn).
  set (q := r * inject_Z n).
  assert (Hq0 : 0 <= q) by (subst q; nra).
  assert (Hq1 : q < inject_Z n) by (subst q; nra).
  assert (Hf0 : (0 <= Qfloor q)%Z).
  { change 0%Z with (Qfloor 0). apply Qfloor_resp_le. exact Hq0. }
  assert (Hf1 : (Qfloor q < n)%Z).
  { rewrite Zlt_Qlt. eapply Qle_lt_trans; [apply Qfloor_le | exact Hq1]. }
  unfold JS.index, JS.floor.
  destruct (Z.ltb_spec (Qfloor q) 0) as [Hneg|_]; [lia|].
  apply lookup_lt_is_Some_2. subst n. lia.
Qed.

End Numbers.

(** ** The [VintageTV] constructor under the contract of [Math.random] *)

Section VintageTVFacts.
Variable rand : nat -> Q.
Hypothesis Hrand : ExhibitionScene.unit_draws rand.

Lemma post_pick {A} (arr : list A) (k : nat) :
  arr <> [] ->
  post (VintageTV.pick rand arr) k (fun o k' => is_Some o /\ k' = S k).
Proof.
  intros Hne. unfold post. simpl. split; [|reflexivity].
  apply index_unit_draw; [exact Hne | apply Hrand].
Qed.

Lemma post_getRandomDesign (k : nat) :
  post (VintageTV.getRandomDesign rand) k
       (fun d k' => is_Some (VintageTV.size d) /\
                    is_Some (VintageTV.knobPosition d) /\ k' = (6 + k)%nat).
Proof.
  unfold post. simpl. repeat split.
  - apply (index_unit_draw VintageTV.sizes); [discriminate | apply Hrand].
  - apply (index_unit_draw VintageTV.positions); [discriminate | apply Hrand].
Qed.

Lemma post_getSizeDimensions (s : option VintageTV.Size) (k : nat) :
  is_Some s ->
  post (VintageTV.getSizeDimensions s) k (fun _ k' => k' = k).
Proof.
  intros [sz ->]. destruct sz; reflexivity.
Qed.

Lemma post_createControlKnobs (d : VintageTV.TVDesign) (k : nat) :
  is_Some (VintageTV.knobPosition d) ->
  post (VintageTV.createControlKnobs rand d) k (fun _ k' => k' = S k).
Proof.
  intros [p Hp]. unfold VintageTV.createControlKnobs.
  apply post_bind. unfold post at 1. simpl.
  rewrite Hp. destruct (_ <? _)%Z; reflexivity.
Qed.

(** [new VintageTV()] returns, after seven draws. *)
Lemma post_new (k : nat) :
  post (VintageTV.new rand) k
       (fun d k' => is_Some (VintageTV.size d) /\ k' = (7 + k)%nat).
Proof.
  unfold VintageTV.new.
  apply post_bind. eapply post_mono; [apply post_getRandomDesign|].
  intros d k1 (Hs & Hp & ->).
  apply post_bind. eapply post_mono; [apply post_getSizeDimensions; exact Hs|].
  intros _ k2 ->.
  apply post_bind. eapply post_mono; [apply post_createControlKnobs; exact Hp|].
  intros _ k3 ->.
  apply post_ret. split; [exact Hs | reflexivity].
Qed.

End VintageTVFacts.

(** ** The overlap test *)

Section Overlap.
Import ExhibitionScene.
Open Scope Q_scope.

(** Linear arithmetic with every [Qabs] term taken as an unknown. *)
Ltac abs_lra :=
  repeat match goal with
         | |- context [Qabs ?e] => generalize (Qabs e); intro
         | H : context [Qabs ?e] |- _ => revert H; generalize (Qabs e); intros ? H
         end;
  unfold Qdiv in *; change (/ 2)%Q with (1 # 2)%Q in *; lra.

Lemma separated_sym (a b : Placed.t) : separated a b -> separated b a.
Proof.
  unfold separated. intros [H|H]; [left|right].
  - rewrite Qabs_Qminus. revert H. abs_lra.
  - rewrite Qabs_Qminus. revert H. abs_lra.
Qed.

(** The test of lines 103-105 fails exactly on a separated pair. *)
Lemma overlap_test (x y : Q) (config : Config.t) (p : Placed.t) :
  JS.ltb (JS.abs (x - Placed.x p)) ((Config.width config + Placed.width p) / 2) &&
  JS.ltb (JS.abs (y - Placed.y p)) ((Config.height config + Placed.height p) / 2) = false <->
  separated (candidate x y config) p.
Proof.
  unfold separated, candidate, JS.abs. simpl.
  rewrite andb_false_iff, !ltb_ge. tauto.
Qed.

(** [canPlace] accepts exactly the anchors separated from every placed
    television. *)
Lemma canPlace_spec (x y : Q) (config : Config.t) (l : list Placed.t) :
  canPlace x y config l = true <->
  Forall (separated (candidate x y config)) l.
Proof.
  induction l as [|p l IH]; cbn [canPlace].
  - split; [constructor | reflexivity].
  - rewrite Forall_cons, <- IH, <- overlap_test.
    match goal with |- context [if ?c then _ else _] => destruct c end.
    + split; [discriminate | intros [H _]; discriminate].
    + tauto.
Qed.

Lemma noOverlap_nil : noOverlap [].
Proof. intros i j a b _ H. rewrite lookup_nil in H. discriminate. Qed.

(** Appending a television separated from all the others keeps the
    invariant. *)
Lemma noOverlap_snoc (l : list Placed.t) (p : Placed.t) :
  noOverlap l -> Forall (separated p) l -> noOverlap (l ++ [p]).
Proof.
  intros Hl Hp i j a b Hij Ha Hb.
  rewrite Forall_lookup in Hp.
  apply lookup_snoc_Some in Ha, Hb.
  destruct Ha as [[Hi Ha]|[Hi Ha]], Hb as [[Hj Hb]|[Hj Hb]]; subst.
  - exact (Hl i j a b Hij Ha Hb).
  - apply separated_sym. exact (Hp i a Ha).
  - exact (Hp j b Hb).
  - lia.
Qed.

End Overlap.

(** ** The placer: the [for (tries ...)] loop *)

Section Placer.
Import ExhibitionScene.
Variable rand : nat -> Q.
Variable C : Constants.

Lemma tryAnchor_shift side config (k j : nat) :
  tryAnchor rand C side config (S (S k)) j = tryAnchor rand C side config k (S j).
Proof.
  unfold tryAnchor.
  replace (S (S k) + 2 * j)%nat with (k + 2 * S j)%nat by lia.
  replace (k + 2 * S j + 1)%nat with (S (S k) + 2 * j + 1)%nat by lia.
  reflexivity.
Qed.

(** One try: two draws, then the test. *)
Lemma findPosition_S n t side config placed (s : Scene) :
  findPosition rand C (S n) t side config placed s =
  let x := anchorX C side config (rand (cursor s)) in
  let y := anchorY C side config (rand (S (cursor s))) in
  let s2 := {| cursor := S (S (cursor s)); vintageTVs := vintageTVs s |} in
  if canPlace x y config placed
  then Ok {| foundPosition := true; bestX := x; bestY := y; tries := t |} s2
  else findPosition rand C n (S t) side config placed s2.
Proof.
  cbn zeta.
  change (findPosition rand C (S n) t side config placed s) with
    ((if canPlace (anchorX C side config (rand (cursor s)))
                  (anchorY C side config (rand (S (cursor s)))) config placed
      then mret {| foundPosition := true;
                   bestX := anchorX C side config (rand (cursor s));
                   bestY := anchorY C side config (rand (S (cursor s)));
                   tries := t |}
      else findPosition rand C n (S t) side config placed)
       {| cursor := S (S (cursor s)); vintageTVs := vintageTVs s |}).
  destruct (canPlace _ _ _ _); reflexivity.
Qed.

(** The loop returns the first sampled anchor that passes the test, after
    two draws per try; it reports no position exactly when it has made all
    its tries and every sampled anchor failed the test. *)
Lemma findPosition_spec side config placed n :
  forall t s,
    post (findPosition rand C n t side config placed) s
      (fun f s' =>
         vintageTVs s' = vintageTVs s /\
         if foundPosition f
         then exists i, (i < n)%nat /\ tries f = (t + i)%nat /\
                cursor s' = (cursor s + 2 * (i + 1))%nat /\
                (bestX f, bestY f) = tryAnchor rand C side config (cursor s) i /\
                canPlace (bestX f) (bestY f) config placed = true /\
                forall j, (j < i)%nat ->
                  uncurry (fun x y => canPlace x y config placed)
                          (tryAnchor rand C side config (cursor s) j) = false
         else tries f = (t + n)%nat /\
              cursor s' = (cursor s + 2 * n)%nat /\
              forall j, (j < n)%nat ->
                uncurry (fun x y => canPlace x y config placed)
                        (tryAnchor rand C side config (cursor s) j) = false).
Proof.
  induction n as [|n IH]; intros t s.
  - unfold post. simpl. split; [reflexivity|].
    repeat split; lia.
  - unfold post. rewrite findPosition_S. cbn zeta.
    destruct (canPlace _ _ _ _) eqn:Hc.
    + split; [reflexivity|]. simpl. exists 0%nat.
      unfold tryAnchor. rewrite !Nat.add_0_r. simpl.
      replace (cursor s + 1)%nat with (S (cursor s)) by lia.
      repeat split; try lia. exact Hc.
    + specialize (IH (S t) {| cursor := S (S (cursor s)); vintageTVs := vintageTVs s |}).
      unfold post in IH.
      destruct (findPosition rand C n (S t) side config placed _) as [f s'|]; [|contradiction].
      destruct IH as [Htv IH]. split; [exact Htv|].
      simpl in IH.
      assert (H0 : uncurry (fun x y => canPlace x y config placed)
                     (tryAnchor rand C side config (cursor s) 0) = false).
      { unfold tryAnchor. rewrite !Nat.add_0_r. simpl.
        replace (cursor s + 1)%nat with (S (cursor s)) by lia. exact Hc. }
      destruct (foundPosition f).
      * destruct IH as (i & Hi & Ht & Hcur & Hb & Hok & Hfail).
        exists (S i). rewrite tryAnchor_shift in Hb.
        repeat split; try lia; try assumption.
        intros [|j] Hj; [exact H0|].
        rewrite <- tryAnchor_shift. apply Hfail. lia.
      * destruct IH as (Ht & Hcur & Hfail).
        repeat split; try lia.
        intros [|j] Hj; [exact H0|].
        rewrite <- tryAnchor_shift. apply Hfail. lia.
Qed.

End Placer.

(** ** The orchestrator: one wall *)

Section Wall.
Import ExhibitionScene.
Variable rand : nat -> Q.
Variable C : Constants.
Hypothesis Hrand : unit_draws rand.

Lemma post_lift {A} (m : M nat A) (s : Scene) (Q : A -> Scene -> Prop) :
  post m (cursor s) (fun a k => Q a {| cursor := k; vintageTVs := vintageTVs s |}) ->
  post (lift m) s Q.
Proof.
  unfold post, lift. destruct (m (cursor s)); auto.
Qed.

Lemma wallBody_spec (wall : Wall) (st : WallLoop) (s : Scene) :
  post (wallBody rand C wall st) s (iteration C st s).
Proof.
  unfold wallBody.
  apply post_bind, post_lift.
  eapply post_mono; [apply (post_pick rand Hrand sizes); discriminate|].
  intros o k [[sz ->] ->].
  apply post_bind.
  eapply post_mono; [apply findPosition_spec|].
  intros f s1 [Htv Hf]. simpl in Htv.
  destruct (foundPosition f); cbn [negb].
  - destruct Hf as (i & Hi & _ & _ & _ & Hok & _).
    apply post_bind, post_lift.
    eapply post_mono; [apply (post_new rand Hrand)|].
    intros d k' [_ ->].
    apply post_bind, post_modify, post_ret.
    split; [reflexivity|]. right.
    eexists _, _. simpl. repeat split; try reflexivity.
    + apply canPlace_spec in Hok. exact Hok.
    + rewrite Htv. reflexivity.
  - apply post_ret. split; [reflexivity|]. left. simpl.
    repeat split; [exact Htv|].
    destruct Hf as (_ & _ & Hfail).
    destruct (maxTries C) as [|n]; [left; reflexivity|]. right.
    intros Hnil. specialize (Hfail 0%nat ltac:(lia)).
    rewrite Hnil in Hfail. simpl in Hfail. discriminate.
Qed.

Lemma wallInv_step len0 (st st' : WallLoop) (n : nat) (s s' : Scene) :
  wallInv C len0 st n s -> wallCond C st = true -> iteration C st s st' s' ->
  wallInv C len0 st' (S n) s' /\
  (maxAttempts C - attempts st' < maxAttempts C - attempts st)%nat.
Proof.
  intros (Hn & Ha & Hi & Hia & Hlen & Hno & Hscene & Hfirst) Hc [Hatt Hcase].
  unfold wallCond in Hc. apply andb_true_iff in Hc as [Hc1 Hc2].
  apply Nat.ltb_lt in Hc1, Hc2.
  split; [|lia].
  destruct Hcase as [(Hp & Ht & Hv & Hwhy) | (p & tv & Hp & Hsep & Ht & Hv)].
  - unfold wallInv. rewrite Hp, Ht, Hv, Hatt.
    repeat split; try lia; try assumption.
    intros _ Htries. destruct Hwhy as [H0|Hne]; [lia|].
    destruct (placedTVs st); [congruence | simpl in Hlen; lia].
  - unfold wallInv. rewrite Hp, Ht, Hv, Hatt, !length_app. simpl.
    repeat split; try lia.
    apply noOverlap_snoc; assumption.
Qed.

(** The loop of one wall returns when given [maxAttempts] units of fuel
    or more, and its invariant holds at the exit. *)
Lemma layoutWall_spec (fuel : nat) (wall : Wall) (s : Scene) :
  (maxAttempts C <= fuel)%nat ->
  post (layoutWall rand C fuel wall) s
       (fun r s' => wallInv C (length (vintageTVs s)) (fst r) (snd r) s' /\
                    wallCond C (fst r) = false).
Proof.
  intros Hfuel. unfold layoutWall.
  apply (post_while (wallCond C) (wallBody rand C wall)
           (wallInv C (length (vintageTVs s)))
           (fun t => (maxAttempts C - attempts t)%nat)).
  - intros t n s1 HI Hc.
    eapply post_mono; [apply wallBody_spec|].
    intros t' s' Hit. exact (wallInv_step _ _ _ _ _ _ HI Hc Hit).
  - unfold wallInv. simpl. repeat split; try lia. apply noOverlap_nil.
  - simpl. lia.
Qed.

Lemma forEach_spec {A} (f : A -> M Scene (WallLoop * nat)) (P : WallLoop * nat -> Prop) :
  (forall a s, post (f a) s
      (fun r s' => P r /\
         length (vintageTVs s') = (length (vintageTVs s) + tvIndex (fst r))%nat)) ->
  forall l s, post (forEach f l) s
      (fun rs s' => Forall P rs /\ length rs = length l /\
         length (vintageTVs s') = (length (vintageTVs s) + placedCount rs)%nat).
Proof.
  intros Hf l. induction l as [|a l IH]; intros s; cbn [forEach].
  - apply post_ret. simpl. repeat split; [constructor | lia].
  - apply post_bind. eapply post_mono; [apply Hf|].
    intros r s1 [HP Hlen].
    apply post_bind. eapply post_mono; [apply IH|].
    intros rs s2 (HPs & Hl & Hlen2).
    apply post_ret. simpl. repeat split; [constructor; assumption | lia | lia].
Qed.

Lemma placedCount_bound (rs : list (WallLoop * nat)) :
  Forall (wallDone C) rs -> (placedCount rs <= length rs * maxTVsPerWall C)%nat.
Proof.
  induction 1 as [|r rs Hr _ IH]; simpl; [lia|].
  destruct Hr as (_ & _ & Hle & _). lia.
Qed.

(** The whole layout returns, with every wall's loop ended. *)
Lemma addVintageTVWall_spec (fuel : nat) (s : Scene) :
  (maxAttempts C <= fuel)%nat ->
  post (addVintageTVWall rand C fuel) s
       (fun rs s' => Forall (wallDone C) rs /\ length rs = 4%nat /\
          length (vintageTVs s') = (length (vintageTVs s) + placedCount rs)%nat).
Proof.
  intros Hfuel. unfold addVintageTVWall.
  apply (forEach_spec (layoutWall rand C fuel) (wallDone C)).
  intros wall s1. eapply post_mono; [apply layoutWall_spec; exact Hfuel|].
  intros [st n] s' [(Hn & Ha & Hi & Hia & Hlen & Hno & Hscene & Hfirst) Hc].
  simpl in *. split; [|exact Hscene].
  unfold wallDone. simpl. repeat split; try lia; try assumption.
  intros Ht Hm Hv.
  unfold wallCond in Hc. apply andb_false_iff in Hc as [Hc|Hc];
    apply Nat.ltb_ge in Hc; [lia|]. apply Hfirst; lia.
Qed.

End Wall.

(** ** The wall layout: claims *)

Section LayoutClaims.
Import ExhibitionScene.
Open Scope Q_scope.

Lemma unit_draws_zero : unit_draws zeroDraws.
Proof. intros k. unfold zeroDraws. split; lra. Qed.

Lemma unit_draws_packed : unit_draws packedDraws.
Proof.
  intros k. unfold packedDraws.
  assert (Hs : 0 <= inject_Z (Z.of_nat ((k / 10) mod 10)) / 10 /\
               inject_Z (Z.of_nat ((k / 10) mod 10)) / 10 < 1).
  { pose proof (Nat.mod_upper_bound (k / 10) 10 ltac:(lia)) as Hm.
    set (m := ((k / 10) mod 10)%nat) in *.
    assert (H0 : 0 <= inject_Z (Z.of_nat m))
      by (change 0 with (inject_Z 0); rewrite <- Zle_Qle; lia).
    assert (H1 : inject_Z (Z.of_nat m) < 10)
      by (change 10 with (inject_Z 10); rewrite <- Zlt_Qlt; lia).
    unfold Qdiv. change (/ 10) with (1 # 10). split; lra. }
  revert Hs. generalize (inject_Z (Z.of_nat ((k / 10) mod 10)) / 10). intros q Hq.
  assert (Hh : 0 <= 0.5 /\ 0.5 < 1) by (split; lra).
  assert (Hz : 0 <= 0 /\ 0 < 1) by (split; lra).
  assert (Hf : 0 <= 79 # 140 /\ 79 # 140 < 1) by (split; lra).
  repeat match goal with
         | |- context [match ?x with _ => _ end] => destruct x
         end; assumption.
Qed.

End LayoutClaims.

(** C1.  Whatever [Math.random] draws, the layout returns and, on each of the
    four walls, any two televisions recorded in [placedTVs] satisfy the
    separating-axis condition [|x1-x2| >= (w1+w2)/2 \/ |y1-y2| >= (h1+h2)/2].
    Against a placed 1.0 x 0.8 television at (0,0), the test rejects a
    1.0 x 0.8 candidate at (0.9,0) and accepts one at (1.1,0). *)
Theorem layout_no_overlap (rand : nat -> Q) (fuel : nat) (s : ExhibitionScene.Scene)
        (Hrand : ExhibitionScene.unit_draws rand) (Hfuel : (100 <= fuel)%nat) :
  (exists rs s',
      ExhibitionScene.addVintageTVWall rand ExhibitionScene.source fuel s = Ok rs s' /\
      length rs = 4%nat /\
      Forall (fun r => forall (i j : nat) (a b : ExhibitionScene.Placed.t),
                i <> j ->
                ExhibitionScene.placedTVs (fst r) !! i = Some a ->
                ExhibitionScene.placedTVs (fst r) !! j = Some b ->
                ExhibitionScene.separated a b) rs) /\
  ExhibitionScene.canPlace 0.9 0 (ExhibitionScene.sizeConfigs VintageTV.medium)
    [ExhibitionScene.Placed.mk 0 0 1.0 0.8] = false /\
  ExhibitionScene.canPlace 1.1 0 (ExhibitionScene.sizeConfigs VintageTV.medium)
    [ExhibitionScene.Placed.mk 0 0 1.0 0.8] = true.
Proof.
  split; [|split; reflexivity].
  pose proof (addVintageTVWall_spec rand ExhibitionScene.source Hrand fuel s Hfuel) as H.
  apply post_ok in H. destruct H as (rs & s' & Heq & Hdone & Hlen & _).
  exists rs, s'. repeat split; [exact Heq | exact Hlen |].
  eapply Forall_impl; [exact Hdone|].
  intros r (_ & _ & _ & _ & Hno & _). exact Hno.
Qed.

Lemma layout_no_overlap_witness :
  ExhibitionScene.unit_draws ExhibitionScene.packedDraws /\ (100 <= 100)%nat /\
  exists rs s',
    ExhibitionScene.addVintageTVWall ExhibitionScene.packedDraws ExhibitionScene.source 100
      ExhibitionScene.emptyScene = Ok rs s' /\
    length rs = 4%nat /\
    Forall (fun r => length (ExhibitionScene.placedTVs (fst r)) = 10%nat) rs /\
    Forall (fun r => forall (i j : nat) (a b : ExhibitionScene.Placed.t),
              i <> j ->
              ExhibitionScene.placedTVs (fst r) !! i = Some a ->
              ExhibitionScene.placedTVs (fst r) !! j = Some b ->
              ExhibitionScene.separated a b) rs.
Proof.
  split; [exact unit_draws_packed|]. split; [lia|].
  destruct (proj1 (layout_no_overlap ExhibitionScene.packedDraws 100
                     ExhibitionScene.emptyScene unit_draws_packed (le_n 100)))
    as (rs & s' & Heq & Hlen & Hsep).
  exists rs, s'. split; [exact Heq|]. split; [exact Hlen|]. split; [|exact Hsep].
  clear Hsep Hlen. vm_compute in Heq. injection Heq as <- <-.
  repeat constructor.
Defined.

(** C7.  Every iteration of a wall's loop returns with [attempts] one higher,
    whether a television was placed or not.  With 100 units of fuel or more
    the layout returns: each of the four loops has made as many iterations
    as its final [attempts], at most 100, has placed at most 10 televisions,
    all recorded in [placedTVs], and the scene has gained at most 40
    televisions. *)
Theorem layout_terminates (rand : nat -> Q) (fuel : nat) (s : ExhibitionScene.Scene)
        (Hrand : ExhibitionScene.unit_draws rand) (Hfuel : (100 <= fuel)%nat) :
  (forall wall st s1, exists st' s1',
      ExhibitionScene.wallBody rand ExhibitionScene.source wall st s1 = Ok st' s1' /\
      ExhibitionScene.attempts st' = S (ExhibitionScene.attempts st)) /\
  (exists rs s',
      ExhibitionScene.addVintageTVWall rand ExhibitionScene.source fuel s = Ok rs s' /\
      length rs = 4%nat /\
      Forall (fun r => snd r = ExhibitionScene.attempts (fst r) /\
                       (snd r <= 100)%nat /\
                       (ExhibitionScene.tvIndex (fst r) <= 10)%nat /\
                       length (ExhibitionScene.placedTVs (fst r)) =
                         ExhibitionScene.tvIndex (fst r)) rs /\
      length (ExhibitionScene.vintageTVs s') =
        (length (ExhibitionScene.vintageTVs s) + ExhibitionScene.placedCount rs)%nat /\
      (ExhibitionScene.placedCount rs <= 40)%nat).
Proof.
  split.
  - intros wall st s1.
    pose proof (wallBody_spec rand ExhibitionScene.source Hrand wall st s1) as H.
    apply post_ok in H. destruct H as (st' & s1' & Heq & Hatt & _).
    exists st', s1'. split; assumption.
  - pose proof (addVintageTVWall_spec rand ExhibitionScene.source Hrand fuel s Hfuel) as H.
    apply post_ok in H. destruct H as (rs & s' & Heq & Hdone & Hlen & Hscene).
    exists rs, s'. repeat split; try assumption.
    + eapply Forall_impl; [exact Hdone|].
      intros r (H1 & H2 & H3 & H4 & _). repeat split; assumption.
    + pose proof (placedCount_bound ExhibitionScene.source rs Hdone) as Hb.
      rewrite Hlen in Hb. simpl in Hb. lia.
Qed.

Lemma layout_terminates_witness :
  ExhibitionScene.unit_draws ExhibitionScene.zeroDraws /\ (100 <= 100)%nat /\
  exists rs s',
    ExhibitionScene.addVintageTVWall ExhibitionScene.zeroDraws ExhibitionScene.source 100
      ExhibitionScene.emptyScene = Ok rs s' /\
    length rs = 4%nat /\
    Forall (fun r => snd r = ExhibitionScene.attempts (fst r) /\
                     (snd r <= 100)%nat /\
                     (ExhibitionScene.tvIndex (fst r) <= 10)%nat /\
                     length (ExhibitionScene.placedTVs (fst r)) =
                       ExhibitionScene.tvIndex (fst r)) rs /\
    length (ExhibitionScene.vintageTVs s') =
      (length (ExhibitionScene.vintageTVs ExhibitionScene.emptyScene)
       + ExhibitionScene.placedCount rs)%nat /\
    (ExhibitionScene.placedCount rs <= 40)%nat.
Proof.
  split; [exact unit_draws_zero|]. split; [lia|].
  exact (proj2 (layout_terminates ExhibitionScene.zeroDraws 100 ExhibitionScene.emptyScene
                  unit_draws_zero (le_n 100))).
Defined.



(** ** Vectors and clamps *)

Section RealFacts.
Import Three FPSCameraControls.
Open Scope R_scope.

Lemma clamp_between (lo hi v : R) :
  lo <= hi -> lo <= Rmax lo (Rmin hi v) <= hi.
Proof.
  intros H. split; [apply Rmax_l|].
  apply Rmax_lub; [exact H | apply Rmin_l].
Qed.

Lemma clamp_id (lo hi v : R) : lo <= v <= hi -> Rmax lo (Rmin hi v) = v.
Proof.
  intros [H1 H2]. rewrite Rmin_right by exact H2. apply Rmax_right. exact H1.
Qed.

Lemma sumsq_nonneg (v : Vector3) : 0 <= x v * x v + y v * y v + z v * z v.
Proof. nra. Qed.

Lemma length_nonneg (v : Vector3) : 0 <= length v.
Proof. apply sqrt_pos. Qed.

Lemma length_sq (v : Vector3) :
  length v * length v = x v * x v + y v * y v + z v * z v.
Proof. apply sqrt_sqrt, sumsq_nonneg. Qed.

Lemma length_multiplyScalar (v : Vector3) (k : R) :
  0 <= k -> length (multiplyScalar v k) = k * length v.
Proof.
  intros Hk. unfold length at 1. simpl.
  apply sqrt_lem_1.
  - nra.
  - pose proof (length_nonneg v). nra.
  - pose proof (length_sq v). nra.
Qed.

Lemma length_zero : length (vec 0 0 0) = 0.
Proof.
  unfold length. simpl. replace (0 * 0 + 0 * 0 + 0 * 0) with 0 by ring.
  apply sqrt_0.
Qed.

Lemma length_eq_0 (v : Vector3) : length v = 0 -> v = vec 0 0 0.
Proof.
  intros H. pose proof (length_sq v) as Hs. rewrite H in Hs.
  destruct v as [a b c]. simpl in Hs.
  assert (a = 0) by nra. assert (b = 0) by nra. assert (c = 0) by nra.
  subst. reflexivity.
Qed.

(** A vector of non-zero length is normalised to length 1. *)
Lemma length_normalize (v : Vector3) : length v <> 0 -> length (normalize v) = 1.
Proof.
  intros Hne. unfold normalize, divideScalar, orOne.
  destruct (Req_dec_T (length v) 0) as [H0|_]; [contradiction|].
  pose proof (length_nonneg v) as Hpos.
  rewrite length_multiplyScalar.
  - field. exact Hne.
  - apply Rlt_le. apply Rdiv_lt_0_compat; lra.
Qed.

Lemma normalize_zero : normalize (vec 0 0 0) = vec 0 0 0.
Proof.
  unfold normalize, divideScalar, multiplyScalar. simpl.
  f_equal; ring.
Qed.

Lemma maxVelocity_pos : 0 < maxVelocity.
Proof. unfold maxVelocity. lra. Qed.

(** Lines 166-170 bring the speed down to [maxVelocity]. *)
Lemma limitVelocity_length (v : Vector3) : length (limitVelocity v) <= maxVelocity.
Proof.
  unfold limitVelocity. pose proof maxVelocity_pos.
  destruct (Rlt_dec maxVelocity (length v)) as [Hgt|Hle]; [|lra].
  rewrite length_multiplyScalar by lra.
  rewrite length_normalize by lra. lra.
Qed.

Lemma limitVelocity_id (v : Vector3) :
  length v <= maxVelocity -> limitVelocity v = v.
Proof.
  intros H. unfold limitVelocity.
  destruct (Rlt_dec maxVelocity (length v)); [lra | reflexivity].
Qed.

Lemma add_zero (v : Vector3) : add v (vec 0 0 0) = v.
Proof. destruct v. unfold add. simpl. f_equal; ring. Qed.

Lemma multiplyScalar_zero (k : R) : multiplyScalar (vec 0 0 0) k = vec 0 0 0.
Proof. unfold multiplyScalar. simpl. f_equal; ring. Qed.

End RealFacts.

(** ** The controller: states it can reach *)

Section Controller.
Import Three FPSCameraControls.
Open Scope R_scope.

Lemma run_invariant (P : State -> Prop) :
  P initial -> (forall st e, P st -> P (step st e)) -> forall es, P (run es).
Proof.
  intros H0 Hstep es. unfold run. generalize initial H0.
  induction es as [|e es IH]; intros st Hst; simpl; [exact Hst|].
  apply IH, Hstep, Hst.
Qed.

Lemma orZero_id (v : R) : orZero v = v.
Proof. unfold orZero. destruct (Req_dec_T v 0); congruence. Qed.

Lemma half_pi_order : - PI / 2 <= PI / 2.
Proof. pose proof PI_RGT_0. lra. Qed.

Lemma clampPitch_range (p : R) : - PI / 2 <= clampPitch p <= PI / 2.
Proof. apply clamp_between, half_pi_order. Qed.

Lemma sensitivity_value : sensitivity = 0.01.
Proof. unfold sensitivity, lookSpeed. lra. Qed.

(** The velocity [update] stores is never faster than the limit. *)
Lemma tickVelocity_length (st : State) : length (tickVelocity st) <= maxVelocity.
Proof.
  unfold tickVelocity. rewrite length_multiplyScalar by (unfold friction; lra).
  pose proof (limitVelocity_length (add (velocity st) (tickAcceleration st))).
  pose proof (length_nonneg (limitVelocity (add (velocity st) (tickAcceleration st)))).
  unfold friction. lra.
Qed.

Lemma step_speed (st : State) (e : Event) :
  length (velocity st) <= maxVelocity -> length (velocity (step st e)) <= maxVelocity.
Proof.
  intros H. destruct e as [code|code|dx dy|h| |p]; simpl; try exact H.
  - unfold onMouseMove. destruct (isPointerLocked st); exact H.
  - unfold update. destruct (isPointerLocked st); simpl; [|exact H].
    apply tickVelocity_length.
Qed.


(** With no movement key down, a tick only applies the friction, provided
    the speed is within the limit. *)
Lemma tickVelocity_coast (st : State) :
  noKeysHeld st -> length (velocity st) <= maxVelocity ->
  tickVelocity st = multiplyScalar (velocity st) friction.
Proof.
  intros (HW & HS & HA & HD & Hsp & Hsh) Hv.
  unfold tickVelocity, tickAcceleration, inputDirection.
  rewrite HW, HS, HA, HD, Hsp, Hsh.
  rewrite multiplyScalar_zero, add_zero, limitVelocity_id by exact Hv.
  reflexivity.
Qed.

Lemma update_locked (st : State) :
  isPointerLocked st = true ->
  velocity (update st) = tickVelocity st /\
  keys (update st) = keys st /\
  isPointerLocked (update st) = true /\
  bounds (update st) = bounds st /\
  position (camera (update st)) =
    applyBounds (bounds st) (add (position (camera st)) (tickVelocity st)).
Proof.
  intros H. unfold update. rewrite H. simpl. repeat split.
Qed.

Lemma noKeysHeld_update (st : State) : noKeysHeld st -> noKeysHeld (update st).
Proof.
  unfold noKeysHeld, held, update.
  destruct (isPointerLocked st); simpl; auto.
Qed.

(** Coasting for [n] ticks multiplies the velocity by [friction ^ n]. *)
Lemma ticks_coast (n : nat) :
  forall st, isPointerLocked st = true -> noKeysHeld st ->
    length (velocity st) <= maxVelocity ->
    velocity (ticks n st) = multiplyScalar (velocity st) (friction ^ n).
Proof.
  induction n as [|n IH]; intros st Hl Hk Hv; simpl.
  - destruct (velocity st). unfold multiplyScalar. simpl. f_equal; ring.
  - destruct (update_locked st Hl) as (Hvel & _ & Hl' & _).
    rewrite IH.
    + rewrite Hvel, tickVelocity_coast by assumption.
      destruct (velocity st). unfold multiplyScalar. simpl. f_equal; ring.
    + exact Hl'.
    + apply noKeysHeld_update, Hk.
    + rewrite Hvel. apply tickVelocity_length.
Qed.

End Controller.

(** ** The controller: claims *)

(** C3.  While the pointer is locked and every lower bound is at most its
    upper bound, the position [update] leaves lies within the bounds on
    each axis.  The clamp acts on the position only: the stored velocity is
    the one that was added to the old position, also on a clamped axis. *)
Theorem update_confines_position (st : FPSCameraControls.State)
        (Hlocked : FPSCameraControls.isPointerLocked st = true)
        (HX : (FPSCameraControls.minX (FPSCameraControls.bounds st)
               <= FPSCameraControls.maxX (FPSCameraControls.bounds st))%R)
        (HY : (FPSCameraControls.minY (FPSCameraControls.bounds st)
               <= FPSCameraControls.maxY (FPSCameraControls.bounds st))%R)
        (HZ : (FPSCameraControls.minZ (FPSCameraControls.bounds st)
               <= FPSCameraControls.maxZ (FPSCameraControls.bounds st))%R) :
  let b := FPSCameraControls.bounds st in
  let p := Three.position (FPSCameraControls.camera (FPSCameraControls.update st)) in
  (FPSCameraControls.minX b <= Three.x p <= FPSCameraControls.maxX b)%R /\
  (FPSCameraControls.minY b <= Three.y p <= FPSCameraControls.maxY b)%R /\
  (FPSCameraControls.minZ b <= Three.z p <= FPSCameraControls.maxZ b)%R /\
  p = FPSCameraControls.applyBounds b
        (Three.add (Three.position (FPSCameraControls.camera st))
                   (FPSCameraControls.tickVelocity st)) /\
  FPSCameraControls.velocity (FPSCameraControls.update st)
    = FPSCameraControls.tickVelocity st /\
  FPSCameraControls.bounds (FPSCameraControls.update st) = b.
Proof.
  intros b p. subst p.
  destruct (update_locked st Hlocked) as (Hv & _ & _ & Hb & Hp).
  rewrite Hp. unfold FPSCameraControls.applyBounds. simpl.
  repeat split; try assumption; try (apply clamp_between; assumption).
Qed.

Lemma update_confines_position_witness :
  FPSCameraControls.isPointerLocked FPSCameraControls.atEastWall = true /\
  (Three.x (Three.position (FPSCameraControls.camera
      (FPSCameraControls.update FPSCameraControls.atEastWall))) <= 7)%R /\
  FPSCameraControls.velocity (FPSCameraControls.update FPSCameraControls.atEastWall)
    = FPSCameraControls.tickVelocity FPSCameraControls.atEastWall.
Proof.
  assert (HX : (-7 <= 7)%R) by lra.
  assert (HY : (1 <= 8)%R) by lra.
  pose proof (update_confines_position FPSCameraControls.atEastWall eq_refl HX HY HX) as H.
  cbv zeta in H. destruct H as ((_ & Hx) & _ & _ & _ & Hv & _).
  split; [reflexivity|]. split; [exact Hx | exact Hv].
Defined.

(** C6.  While the pointer is not locked, [update] and [onMouseMove] return
    the state they were given.  A key event is recorded in [keys] whatever
    the lock: the key reads as held after [onKeyDown], as not held after
    [onKeyUp], and nothing else changes. *)
Theorem released_controller_is_inert (st : FPSCameraControls.State)
        (Hreleased : FPSCameraControls.isPointerLocked st = false) :
  FPSCameraControls.update st = st /\
  (forall dx dy, FPSCameraControls.onMouseMove st dx dy = st) /\
  (forall (st' : FPSCameraControls.State) (code : string),
      FPSCameraControls.keys (FPSCameraControls.onKeyDown st' code)
        = <[ code := true ]> (FPSCameraControls.keys st') /\
      FPSCameraControls.keys (FPSCameraControls.onKeyUp st' code)
        = <[ code := false ]> (FPSCameraControls.keys st') /\
      FPSCameraControls.held (FPSCameraControls.onKeyDown st' code) code = true /\
      FPSCameraControls.held (FPSCameraControls.onKeyUp st' code) code = false /\
      FPSCameraControls.isPointerLocked (FPSCameraControls.onKeyDown st' code)
        = FPSCameraControls.isPointerLocked st' /\
      FPSCameraControls.isPointerLocked (FPSCameraControls.onKeyUp st' code)
        = FPSCameraControls.isPointerLocked st').
Proof.
  split; [|split].
  - unfold FPSCameraControls.update. rewrite Hreleased. reflexivity.
  - intros dx dy. unfold FPSCameraControls.onMouseMove. rewrite Hreleased. reflexivity.
  - intros st' code.
    unfold FPSCameraControls.held, FPSCameraControls.onKeyDown, FPSCameraControls.onKeyUp.
    simpl. rewrite !lookup_insert_eq. repeat split.
Qed.

Lemma released_controller_is_inert_witness :
  FPSCameraControls.isPointerLocked FPSCameraControls.initial = false /\
  FPSCameraControls.update FPSCameraControls.initial = FPSCameraControls.initial /\
  FPSCameraControls.onMouseMove FPSCameraControls.initial 3 4 = FPSCameraControls.initial /\
  FPSCameraControls.held
    (FPSCameraControls.onKeyDown FPSCameraControls.initial "KeyW") "KeyW" = true.
Proof.
  pose proof (released_controller_is_inert FPSCameraControls.initial eq_refl)
    as (Hu & Hm & Hk).
  split; [reflexivity|]. split; [exact Hu|]. split; [apply Hm|].
  destruct (Hk FPSCameraControls.initial "KeyW"%string) as (_ & _ & Hd & _). exact Hd.
Defined.

Section LookFacts.
Import Three FPSCameraControls.
Open Scope R_scope.

Lemma onMouseMove_locked (st : State) (dx dy : R) :
  isPointerLocked st = true ->
  pitch (onMouseMove st dx dy) = clampPitch (pitch st - dy * sensitivity) /\
  yaw (onMouseMove st dx dy) = yaw st - dx * sensitivity /\
  isPointerLocked (onMouseMove st dx dy) = true /\
  rotation (camera (onMouseMove st dx dy)) =
    {| ex := clampPitch (pitch st - dy * sensitivity);
       ey := yaw st - dx * sensitivity;
       ez := ez (rotation (camera st)); order := YXZ |}.
Proof.
  intros H. unfold onMouseMove. rewrite H, !orZero_id. simpl. repeat split.
Qed.

Lemma look_locked (ds : list (R * R)) :
  forall st, isPointerLocked st = true -> isPointerLocked (look st ds) = true.
Proof.
  induction ds as [|d ds IH]; intros st H; simpl; [exact H|].
  apply IH. apply onMouseMove_locked, H.
Qed.

Lemma look_snoc (st : State) (ds : list (R * R)) (d : R * R) :
  look st (ds ++ [d]) = onMouseMove (look st ds) (fst d) (snd d).
Proof. unfold look. rewrite fold_left_app. reflexivity. Qed.

Lemma look_yaw (ds : list (R * R)) :
  forall st, isPointerLocked st = true ->
    yaw (look st ds) = yaw st - sumX ds * sensitivity.
Proof.
  induction ds as [|d ds IH]; intros st H; simpl; [lra|].
  destruct (onMouseMove_locked st (fst d) (snd d) H) as (_ & Hy & Hl & _).
  fold (look (onMouseMove st (fst d) (snd d)) ds).
  rewrite IH, Hy by exact Hl. lra.
Qed.

(** Motions that all lower the pitch: it follows the sum, down to the
    lower limit. *)
Lemma look_pitch_down (ds : list (R * R)) :
  forall st, isPointerLocked st = true -> pitch st <= PI / 2 ->
    Forall (fun d => 0 <= snd d) ds ->
    pitch (look st ds) = Rmax (- PI / 2) (pitch st - sumY ds * sensitivity)
    \/ (ds = [] /\ pitch (look st ds) = pitch st).
Proof.
  pose proof PI_RGT_0 as Hpi.
  assert (Hs : 0 < sensitivity) by (rewrite sensitivity_value; lra).
  induction ds as [|d ds IH]; intros st H Hp Hds; [right; auto|].
  left. inversion Hds as [|? ? Hd Hds']; subst. simpl.
  fold (look (onMouseMove st (fst d) (snd d)) ds).
  destruct (onMouseMove_locked st (fst d) (snd d) H) as (Hpitch & _ & Hl & _).
  assert (Hstep : pitch (onMouseMove st (fst d) (snd d))
                  = Rmax (- PI / 2) (pitch st - snd d * sensitivity)).
  { rewrite Hpitch. unfold clampPitch. rewrite Rmin_right; [reflexivity|]. nra. }
  assert (Hle : pitch (onMouseMove st (fst d) (snd d)) <= PI / 2).
  { rewrite Hstep. apply Rmax_lub; [lra | nra]. }
  destruct (IH _ Hl Hle Hds') as [Hrec | [-> Hrec]].
  - rewrite Hrec, Hstep.
    assert (Hsum : 0 <= sumY ds * sensitivity).
    { apply Rmult_le_pos; [|lra]. clear -Hds'.
      induction Hds' as [|e es He _ IHs]; simpl; lra. }
    replace ((snd d + sumY ds) * sensitivity)
      with (snd d * sensitivity + sumY ds * sensitivity) by ring.
    assert (Hfst : 0 <= snd d * sensitivity) by (apply Rmult_le_pos; lra).
    revert Hsum Hfst.
    generalize (sumY ds * sensitivity), (snd d * sensitivity). intros u v Hu Hv.
    destruct (Rle_dec (- PI / 2) (pitch st - v)) as [Hin|Hout].
    + rewrite (Rmax_right _ (pitch st - v)) by exact Hin. f_equal. lra.
    + rewrite (Rmax_left _ (pitch st - v)) by lra.
      rewrite !Rmax_left by lra. reflexivity.
  - simpl. rewrite Hstep. f_equal. lra.
Qed.

End LookFacts.

(** C4, as the code has it.  While the pointer is locked, a pointer motion
    [(dx, dy)] sets the pitch to [pitch - dy * sensitivity] clamped to
    [-PI/2, PI/2] and the yaw to [yaw - dx * sensitivity], unclamped; after
    any sequence of motions the pitch lies in [-PI/2, PI/2] and the yaw is
    the initial yaw minus the summed [dx] times the sensitivity.  The clamp
    acts after every motion: motions that each lower the pitch, by 2 PI in
    total, leave it at [-PI/2]. *)
Theorem look_clamps_pitch_only (st : FPSCameraControls.State) (ds : list (R * R))
        (Hlocked : FPSCameraControls.isPointerLocked st = true) :
  (forall dx dy : R,
      FPSCameraControls.pitch (FPSCameraControls.onMouseMove st dx dy)
        = Rmax (- PI / 2)
               (Rmin (PI / 2)
                     (FPSCameraControls.pitch st - dy * FPSCameraControls.sensitivity)) /\
      FPSCameraControls.yaw (FPSCameraControls.onMouseMove st dx dy)
        = (FPSCameraControls.yaw st - dx * FPSCameraControls.sensitivity)%R) /\
  FPSCameraControls.sensitivity = 0.01%R /\
  (ds <> [] ->
   (- PI / 2 <= FPSCameraControls.pitch (FPSCameraControls.look st ds) <= PI / 2)%R) /\
  FPSCameraControls.yaw (FPSCameraControls.look st ds)
    = (FPSCameraControls.yaw st
       - FPSCameraControls.sumX ds * FPSCameraControls.sensitivity)%R /\
  ((FPSCameraControls.pitch st <= PI / 2)%R ->
   Forall (fun d => (0 <= snd d)%R) ds ->
   (FPSCameraControls.sumY ds * FPSCameraControls.sensitivity = 2 * PI)%R ->
   FPSCameraControls.pitch (FPSCameraControls.look st ds) = (- PI / 2)%R).
Proof.
  split; [|split; [|split; [|split]]].
  - intros dx dy.
    destruct (onMouseMove_locked st dx dy Hlocked) as (Hp & Hy & _). split; assumption.
  - apply sensitivity_value.
  - intros Hne. destruct (exists_last Hne) as (ds' & d & ->).
    rewrite look_snoc.
    destruct (onMouseMove_locked (FPSCameraControls.look st ds') (fst d) (snd d)
                (look_locked ds' st Hlocked)) as (Hp & _).
    rewrite Hp. apply clampPitch_range.
  - apply look_yaw, Hlocked.
  - intros Hp Hds Hsum. pose proof PI_RGT_0 as Hpi.
    destruct (look_pitch_down ds st Hlocked Hp Hds) as [H | [-> _]].
    + rewrite H, Hsum. apply Rmax_left. lra.
    + simpl in Hsum. lra.
Qed.

Lemma look_clamps_pitch_only_witness :
  FPSCameraControls.isPointerLocked FPSCameraControls.atEastWall = true /\
  FPSCameraControls.pitch
    (FPSCameraControls.look FPSCameraControls.atEastWall [(0, 200 * PI)%R])
  = (- PI / 2)%R.
Proof.
  split; [reflexivity|].
  pose proof (look_clamps_pitch_only FPSCameraControls.atEastWall [(0, 200 * PI)%R] eq_refl)
    as (_ & _ & _ & _ & H).
  pose proof PI_RGT_0 as Hpi.
  apply H.
  - simpl. lra.
  - repeat constructor. simpl. lra.
  - unfold FPSCameraControls.sumY, FPSCameraControls.sensitivity,
      FPSCameraControls.lookSpeed. simpl. lra.
Defined.

(** C5.  The speed of a controller never exceeds 0.08 after any sequence of
    events.  From a state within that limit, a tick with the pointer locked
    and no movement key down multiplies the velocity by the friction 0.95;
    the speed is multiplied by 0.95 too, so it strictly decreases unless the
    velocity is zero; after [n] such ticks it is [0.95 ^ n] times the
    initial speed, hence at most [0.08 * 0.95 ^ 20] after 20. *)
Theorem friction_decay (st : FPSCameraControls.State) (n : nat)
        (Hlocked : FPSCameraControls.isPointerLocked st = true)
        (Hkeys : FPSCameraControls.noKeysHeld st)
        (Hspeed : (Three.length (FPSCameraControls.velocity st)
                   <= FPSCameraControls.maxVelocity)%R) :
  (forall es,
      (Three.length (FPSCameraControls.velocity (FPSCameraControls.run es))
       <= FPSCameraControls.maxVelocity)%R) /\
  FPSCameraControls.friction = 0.95%R /\
  FPSCameraControls.velocity (FPSCameraControls.update st)
    = Three.multiplyScalar (FPSCameraControls.velocity st) 0.95 /\
  Three.length (FPSCameraControls.velocity (FPSCameraControls.update st))
    = (0.95 * Three.length (FPSCameraControls.velocity st))%R /\
  (FPSCameraControls.velocity st <> Three.vec 0 0 0 ->
   (Three.length (FPSCameraControls.velocity (FPSCameraControls.update st))
    < Three.length (FPSCameraControls.velocity st))%R) /\
  Three.length (FPSCameraControls.velocity (FPSCameraControls.ticks n st))
    = (0.95 ^ n * Three.length (FPSCameraControls.velocity st))%R /\
  (Three.length (FPSCameraControls.velocity (FPSCameraControls.ticks 20 st))
   <= 0.08 * 0.95 ^ 20)%R.
Proof.
  assert (Hf : FPSCameraControls.friction = 0.95%R) by reflexivity.
  assert (Hup : FPSCameraControls.velocity (FPSCameraControls.update st)
                = Three.multiplyScalar (FPSCameraControls.velocity st) 0.95).
  { destruct (update_locked st Hlocked) as (Hv & _).
    rewrite Hv. apply tickVelocity_coast; assumption. }
  assert (Hn : forall k,
             Three.length (FPSCameraControls.velocity (FPSCameraControls.ticks k st))
             = (0.95 ^ k * Three.length (FPSCameraControls.velocity st))%R).
  { intros k. rewrite ticks_coast by assumption. rewrite Hf.
    apply length_multiplyScalar. apply pow_le. lra. }
  pose proof (length_nonneg (FPSCameraControls.velocity st)) as Hpos.
  split; [|split; [|split; [|split; [|split; [|split]]]]].
  - intros es.
    apply (run_invariant
             (fun s => (Three.length (FPSCameraControls.velocity s)
                        <= FPSCameraControls.maxVelocity)%R)).
    + simpl. rewrite length_zero. apply Rlt_le, maxVelocity_pos.
    + intros s e. apply step_speed.
  - exact Hf.
  - exact Hup.
  - rewrite Hup. apply length_multiplyScalar. lra.
  - intros Hne. rewrite Hup, length_multiplyScalar by lra.
    assert (Three.length (FPSCameraControls.velocity st) <> 0%R)
      by (intros H0; apply Hne, length_eq_0, H0).
    lra.
  - apply Hn.
  - rewrite Hn. unfold FPSCameraControls.maxVelocity in Hspeed.
    assert (0 < 0.95 ^ 20)%R by (apply pow_lt; lra).
    nra.
Qed.

Lemma friction_decay_witness :
  FPSCameraControls.isPointerLocked FPSCameraControls.atEastWall = true /\
  FPSCameraControls.noKeysHeld FPSCameraControls.atEastWall /\
  (Three.length (FPSCameraControls.velocity FPSCameraControls.atEastWall)
   <= FPSCameraControls.maxVelocity)%R /\
  FPSCameraControls.velocity (FPSCameraControls.update FPSCameraControls.atEastWall)
    = Three.multiplyScalar (FPSCameraControls.velocity FPSCameraControls.atEastWall) 0.95.
Proof.
  assert (Hk : FPSCameraControls.noKeysHeld FPSCameraControls.atEastWall)
    by (repeat split).
  assert (Hs : (Three.length (FPSCameraControls.velocity FPSCameraControls.atEastWall)
                <= FPSCameraControls.maxVelocity)%R).
  { unfold Three.length, FPSCameraControls.maxVelocity. simpl.
    replace (0.05 * 0.05 + 0 * 0 + 0 * 0)%R with (0.05 * 0.05)%R by ring.
    rewrite sqrt_square by lra. lra. }
  split; [reflexivity|]. split; [exact Hk|]. split; [exact Hs|].
  exact (proj1 (proj2 (proj2 (friction_decay FPSCameraControls.atEastWall 0 eq_refl Hk Hs)))).
Defined.

(** C8, as the code has it.  [dispose] leaves the controller's fields as
    they are and calls
    [document.exitPointerLock] exactly when [isPointerLocked] is set.  With
    the flag in step with the host, the canvas does not hold the pointer
    lock afterwards: it did not hold it before when the flag was clear, and
    the call gives it up when the flag was set.  No handler of the
    controller stays registered.  A [pointerlockchange] event that finds a
    released controller released again changes nothing in it. *)
Theorem dispose_releases_capture (st : FPSCameraControls.State) (h : FPSCameraControls.Host)
        (Hsync : FPSCameraControls.isPointerLocked st
                 = FPSCameraControls.isDomElement (FPSCameraControls.pointerLockElement h)) :
  let h' := snd (FPSCameraControls.dispose st h) in
  fst (FPSCameraControls.dispose st h) = st /\
  FPSCameraControls.calls h'
    = FPSCameraControls.calls h ++
      (if FPSCameraControls.isPointerLocked st
       then [FPSCameraControls.ExitPointerLock] else []) /\
  (FPSCameraControls.isPointerLocked st = false ->
   FPSCameraControls.calls h' = FPSCameraControls.calls h /\
   FPSCameraControls.pointerLockElement h' = FPSCameraControls.pointerLockElement h) /\
  FPSCameraControls.isDomElement (FPSCameraControls.pointerLockElement h') = false /\
  (forall type, type ∈ FPSCameraControls.eventTypes ->
                type ∉ FPSCameraControls.listeners h') /\
  (FPSCameraControls.isPointerLocked st = false ->
   fst (FPSCameraControls.onPointerLockChange st h) = st).
Proof.
  intros h'. subst h'. unfold FPSCameraControls.dispose. cbn [fst snd].
  split; [reflexivity|].
  destruct (FPSCameraControls.isPointerLocked st) eqn:Hl; simpl.
  - repeat split; try discriminate.
    intros type Ht Hin. unfold FPSCameraControls.eventTypes in Ht.
    rewrite !elem_of_cons, elem_of_nil in Ht.
    rewrite !elem_of_difference, !elem_of_singleton in Hin. tauto.
  - rewrite app_nil_r. repeat split; auto.
    + intros type Ht Hin. unfold FPSCameraControls.eventTypes in Ht.
      rewrite !elem_of_cons, elem_of_nil in Ht.
      rewrite !elem_of_difference, !elem_of_singleton in Hin. tauto.
    + unfold FPSCameraControls.onPointerLockChange. cbn [fst].
      rewrite <- Hsync. destruct st; simpl in *; subst; reflexivity.
Qed.

Lemma dispose_releases_capture_witness :
  FPSCameraControls.isPointerLocked FPSCameraControls.atEastWall
    = FPSCameraControls.isDomElement
        (FPSCameraControls.pointerLockElement FPSCameraControls.lockedHost) /\
  FPSCameraControls.calls
    (snd (FPSCameraControls.dispose FPSCameraControls.atEastWall FPSCameraControls.lockedHost))
  = [FPSCameraControls.RequestPointerLock; FPSCameraControls.ExitPointerLock] /\
  FPSCameraControls.isDomElement
    (FPSCameraControls.pointerLockElement
       (snd (FPSCameraControls.dispose FPSCameraControls.atEastWall
               FPSCameraControls.lockedHost))) = false.
Proof.
  split; [reflexivity|].
  pose proof (dispose_releases_capture FPSCameraControls.atEastWall
                FPSCameraControls.lockedHost eq_refl) as H.
  cbv zeta in H. destruct H as (_ & Hc & _ & Hp & _).
  split; [exact Hc | exact Hp].
Defined.

(** C8, as the specification states it, fails for a captured controller:
    [dispose] does not clear [isPointerLocked], so the controller is not in
    the released state, and a later [update] still changes it. *)
Lemma disposed_controller_is_still_captured :
  FPSCameraControls.isPointerLocked FPSCameraControls.atEastWall = true /\
  FPSCameraControls.isPointerLocked
    (fst (FPSCameraControls.dispose FPSCameraControls.atEastWall
            FPSCameraControls.lockedHost)) = true /\
  FPSCameraControls.update
    (fst (FPSCameraControls.dispose FPSCameraControls.atEastWall
            FPSCameraControls.lockedHost))
  <> fst (FPSCameraControls.dispose FPSCameraControls.atEastWall
            FPSCameraControls.lockedHost).
Proof.
  split; [reflexivity|]. split; [reflexivity|].
  change (fst (FPSCameraControls.dispose FPSCameraControls.atEastWall
                 FPSCameraControls.lockedHost)) with FPSCameraControls.atEastWall.
  intros H.
  apply (f_equal (fun st => Three.x (FPSCameraControls.velocity st))) in H.
  cbv beta in H.
  destruct (update_locked FPSCameraControls.atEastWall eq_refl) as (Hv & _).
  assert (Hk : FPSCameraControls.noKeysHeld FPSCameraControls.atEastWall)
    by (repeat split; reflexivity).
  assert (Hs : (Three.length (FPSCameraControls.velocity FPSCameraControls.atEastWall)
                <= FPSCameraControls.maxVelocity)%R).
  { unfold Three.length, FPSCameraControls.maxVelocity. simpl.
    replace (0.05 * 0.05 + 0 * 0 + 0 * 0)%R with (0.05 * 0.05)%R by ring.
    rewrite sqrt_square by lra. lra. }
  rewrite Hv, (tickVelocity_coast _ Hk Hs) in H.
  unfold FPSCameraControls.friction in H. simpl in H. lra.
Qed.

(** ** The movement basis *)

Section Basis.
Import Three FPSCameraControls.
Open Scope R_scope.

Lemma half_angles (a : R) :
  sin a = 2 * sin (a / 2) * cos (a / 2) /\
  cos a = cos (a / 2) * cos (a / 2) - sin (a / 2) * sin (a / 2) /\
  sin (a / 2) * sin (a / 2) + cos (a / 2) * cos (a / 2) = 1.
Proof.
  split; [|split].
  - rewrite <- sin_2a. f_equal. field.
  - rewrite <- cos_2a. f_equal. field.
  - pose proof (sin2_cos2 (a / 2)) as H. unfold Rsqr in H. exact H.
Qed.

(** The camera's forward and right axes for a pitch and a yaw. *)
Lemma look_axes (p yw : R) :
  applyQuaternion (vec 0 0 (-1)) (setFromEuler (lookRotation p yw))
    = vec (- (sin yw * cos p)) (sin p) (- (cos yw * cos p)) /\
  applyQuaternion (vec 1 0 0) (setFromEuler (lookRotation p yw))
    = vec (cos yw) 0 (- sin yw).
Proof.
  destruct (half_angles p) as (Hsp & Hcp & Hp).
  destruct (half_angles yw) as (Hsy & Hcy & Hy).
  unfold applyQuaternion, setFromEuler, lookRotation. simpl.
  replace (0 / 2) with 0 by field. rewrite cos_0, sin_0.
  rewrite Hsp, Hcp, Hsy, Hcy.
  revert Hp Hy.
  generalize (sin (p / 2)), (cos (p / 2)), (sin (yw / 2)), (cos (yw / 2)).
  intros s1 c1 s2 c2 Hp Hy.
  split; f_equal; nsatz.
Qed.

Lemma length_flat (a c : R) : length (vec a 0 c) = sqrt (a * a + c * c).
Proof. unfold length. simpl. f_equal. ring. Qed.

(** The basis: the right vector is always a horizontal unit vector; the
    forward vector is the horizontal direction of the view scaled by the
    sign of [cos pitch]. *)
Lemma movementBasis_look (p yw : R) :
  let b := movementBasis (setFromEuler (lookRotation p yw)) in
  snd b = vec (cos yw) 0 (- sin yw) /\
  (0 < cos p -> fst b = vec (- sin yw) 0 (- cos yw)) /\
  (cos p = 0 -> fst b = vec 0 0 0).
Proof.
  destruct (look_axes p yw) as [Hf Hr].
  unfold movementBasis. cbn zeta. rewrite Hf, Hr. cbn [fst snd].
  pose proof (sin2_cos2 yw) as Hyw. unfold Rsqr in Hyw.
  split; [|split].
  - unfold setY. simpl.
    assert (Hl : length (vec (cos yw) 0 (- sin yw)) = 1).
    { rewrite length_flat.
      replace (cos yw * cos yw + - sin yw * - sin yw) with 1 by nra.
      apply sqrt_1. }
    unfold normalize, orOne. rewrite Hl.
    destruct (Req_dec_T 1 0); [lra|].
    unfold divideScalar, multiplyScalar. simpl. f_equal; field.
  - intros Hc. unfold setY. simpl.
    assert (Hl : length (vec (- (sin yw * cos p)) 0 (- (cos yw * cos p))) = cos p).
    { rewrite length_flat. apply sqrt_lem_1; nra. }
    unfold normalize, orOne. rewrite Hl.
    destruct (Req_dec_T (cos p) 0); [lra|].
    unfold divideScalar, multiplyScalar. simpl. f_equal; field; lra.
  - intros Hc. unfold setY. simpl. rewrite Hc.
    replace (- (sin yw * 0)) with 0 by ring.
    replace (- (cos yw * 0)) with 0 by ring.
    apply normalize_zero.
Qed.

Lemma length_unit_flat (a c : R) : a * a + c * c = 1 -> length (vec a 0 c) = 1.
Proof. intros H. rewrite length_flat, H. apply sqrt_1. Qed.

(** After any events the camera is turned by the controller's pitch and
    yaw, without roll. *)
Lemma run_orientation (es : list Event) :
  quaternion (camera (run es))
    = setFromEuler (lookRotation (pitch (run es)) (yaw (run es))).
Proof.
  assert (H : rotation (camera (run es)) = lookRotation (pitch (run es)) (yaw (run es))
              \/ (rotation (camera (run es)) = rotation initialCamera /\
                  pitch (run es) = 0 /\ yaw (run es) = 0)).
  { apply (run_invariant
             (fun st => rotation (camera st) = lookRotation (pitch st) (yaw st)
                        \/ (rotation (camera st) = rotation initialCamera /\
                            pitch st = 0 /\ yaw st = 0))).
    - right. repeat split.
    - intros st e Hst.
      destruct e as [code|code|dx dy|h| |p]; simpl; try exact Hst.
      + unfold onMouseMove. destruct (isPointerLocked st); [|exact Hst].
        left. simpl. unfold lookRotation. f_equal.
        destruct Hst as [-> | [-> _]]; reflexivity.
      + unfold update. destruct (isPointerLocked st); exact Hst. }
  unfold quaternion. destruct H as [-> | (-> & -> & ->)]; [reflexivity|].
  unfold setFromEuler, lookRotation. simpl.
  replace (0 / 2) with 0 by field. rewrite cos_0, sin_0. f_equal; ring.
Qed.

End Basis.

(** * Further properties *)

(** ** The wall layout: where the televisions hang *)

Section Hanging.
Import ExhibitionScene.
Open Scope Q_scope.
Variable rand : nat -> Q.
Variable C : Constants.
Hypothesis Hrand : unit_draws rand.

(** A successful iteration records a sampled footprint and mounts one
    television for it; any other iteration leaves both lists alone. *)
Lemma wallBody_placement (wall : Wall) (st : WallLoop) (s : Scene) :
  post (wallBody rand C wall st) s
    (fun st' s' =>
       (placedTVs st' = placedTVs st /\ vintageTVs s' = vintageTVs s) \/
       (exists p tv,
           placedTVs st' = placedTVs st ++ [p] /\
           vintageTVs s' = vintageTVs s ++ [tv] /\
           sampledFootprint C (isSideWall wall) p /\ mounted wall p tv)).
Proof.
  unfold wallBody.
  apply post_bind, post_lift.
  eapply post_mono; [apply (post_pick rand Hrand sizes); discriminate|].
  intros o k [[sz ->] ->].
  apply post_bind.
  eapply post_mono; [apply findPosition_spec|].
  intros f s1 [Htv Hf]. simpl in Htv.
  destruct (foundPosition f); cbn [negb].
  - destruct Hf as (i & _ & _ & _ & Hb & _ & _).
    apply post_bind, post_lift.
    eapply post_mono; [apply (post_new rand Hrand)|].
    intros d k' [Hsize ->].
    apply post_bind, post_modify, post_ret.
    right. eexists _, _. simpl. split; [reflexivity|].
    split; [rewrite Htv; reflexivity|].
    split.
    + unfold tryAnchor in Hb. injection Hb as Hx Hy.
      exists sz, (rand (S (cursor s) + 2 * i)%nat), (rand (S (cursor s) + 2 * i + 1)%nat).
      split; [apply Hrand|]. split; [apply Hrand|].
      unfold candidate. simpl in Hx, Hy. rewrite Hx, Hy. reflexivity.
    + unfold mounted. simpl. repeat split. exact Hsize.
  - apply post_ret. left. simpl. split; [reflexivity | exact Htv].
Qed.

Lemma wallMounted_step (wall : Wall) (tvs0 : list TVObject) (st : WallLoop) (s : Scene) :
  wallMounted C wall tvs0 st s ->
  post (wallBody rand C wall st) s (fun st' s' => wallMounted C wall tvs0 st' s').
Proof.
  intros [Hsam (tvs & Htvs & Hm)].
  eapply post_mono; [apply wallBody_placement|].
  intros st' s' [[Hp Hv] | (p & tv & Hp & Hv & Hs & Hmt)].
  - split; [rewrite Hp; exact Hsam|].
    exists tvs. rewrite Hp, Hv. split; assumption.
  - split; [rewrite Hp; apply Forall_app; split; [exact Hsam | constructor; [exact Hs | constructor]]|].
    exists (tvs ++ [tv]). rewrite Hp, Hv, Htvs, <- app_assoc.
    split; [reflexivity|].
    apply Forall2_app; [exact Hm | constructor; [exact Hmt | constructor]].
Qed.

(** The loop of one wall ends with the wall's televisions appended to the
    scene, one per recorded footprint. *)
Lemma layoutWall_mounted (fuel : nat) (wall : Wall) (s : Scene) :
  (maxAttempts C <= fuel)%nat ->
  post (layoutWall rand C fuel wall) s
       (fun r s' => wallMounted C wall (vintageTVs s) (fst r) s').
Proof.
  intros Hfuel. unfold layoutWall.
  eapply post_mono.
  - apply (post_while (wallCond C) (wallBody rand C wall)
             (fun t n s' => attempts t = n /\ (attempts t <= maxAttempts C)%nat /\
                            wallMounted C wall (vintageTVs s) t s')
             (fun t => (maxAttempts C - attempts t)%nat)).
    + intros t n s1 (Hn & Ha & HI) Hc.
      unfold wallCond in Hc. apply andb_true_iff in Hc as [_ Hc].
      apply Nat.ltb_lt in Hc.
      pose proof (wallBody_spec rand C Hrand wall t s1) as Hit.
      pose proof (wallMounted_step wall (vintageTVs s) t s1 HI) as Hmt.
      unfold post in *. destruct (wallBody rand C wall t s1) as [t' s'|]; [|contradiction].
      destruct Hit as [Hatt _].
      split; [split; [lia | split; [lia | exact Hmt]] | lia].
    + simpl. repeat split; try lia; [constructor|].
      exists []. rewrite app_nil_r. split; [reflexivity | constructor].
    + simpl. lia.
  - intros r s' [(_ & _ & H) _]. exact H.
Qed.

Lemma forEach_walls (fuel : nat) (tvs0 : list TVObject) (ws : list Wall) :
  (maxAttempts C <= fuel)%nat ->
  (forall w, In w ws -> In w (walls C)) ->
  forall s,
    (exists tvs, vintageTVs s = tvs0 ++ tvs /\ Forall (hung C) tvs) ->
    post (forEach (layoutWall rand C fuel) ws) s
      (fun rs s' =>
         (exists tvs, vintageTVs s' = tvs0 ++ tvs /\ Forall (hung C) tvs) /\
         Forall2 (fun w r => Forall (sampledFootprint C (isSideWall w)) (placedTVs (fst r)))
                 ws rs).
Proof.
  intros Hfuel. induction ws as [|w ws IH]; intros Hin s Hs; cbn [forEach].
  - apply post_ret. split; [exact Hs | constructor].
  - apply post_bind. eapply post_mono; [apply layoutWall_mounted; exact Hfuel|].
    intros r s1 [Hsam (tvs & Htvs & Hm)].
    apply post_bind. eapply post_mono.
    + apply IH; [intros w' Hw'; apply Hin; right; exact Hw'|].
      destruct Hs as (old & Hold & Hhung).
      exists (old ++ tvs). rewrite Htvs, Hold, <- app_assoc. split; [reflexivity|].
      apply Forall_app. split; [exact Hhung|].
      clear -Hsam Hm Hin. revert Hsam.
      induction Hm as [|p tv ps tvs Hpt _ IHm]; intros Hsam; [constructor|].
      inversion Hsam; subst. constructor; [|apply IHm; assumption].
      exists w, p. repeat split; try assumption; try apply Hpt.
      apply Hin. left. reflexivity.
    + intros rs s2 [Hh Hrs]. apply post_ret.
      split; [exact Hh | constructor; assumption].
Qed.

(** The whole layout: the scene gains televisions that all hang on a wall,
    and every wall's footprints were sampled for that wall. *)
Lemma addVintageTVWall_hung (fuel : nat) (s : Scene) :
  (maxAttempts C <= fuel)%nat ->
  post (addVintageTVWall rand C fuel) s
    (fun rs s' =>
       (exists tvs, vintageTVs s' = vintageTVs s ++ tvs /\ Forall (hung C) tvs) /\
       Forall2 (fun w r => Forall (sampledFootprint C (isSideWall w)) (placedTVs (fst r)))
               (walls C) rs).
Proof.
  intros Hfuel. unfold addVintageTVWall.
  apply forEach_walls; [exact Hfuel | auto |].
  exists []. rewrite app_nil_r. split; [reflexivity | constructor].
Qed.

End Hanging.

Section HangingClaims.
Import ExhibitionScene.
Open Scope Q_scope.

(** In the room of the source a sampled footprint lies in the region the
    anchors are drawn from, and has the size of a size class. *)
Lemma sampled_inside (side : bool) (p : Placed.t) :
  sampledFootprint source side p ->
  insideWall source side p /\
  exists sz, Placed.width p = Config.width (sizeConfigs sz) /\
             Placed.height p = Config.height (sizeConfigs sz).
Proof.
  intros (sz & r1 & r2 & [H10 H11] & [H20 H21] & ->).
  split; [|exists sz; split; reflexivity].
  destruct side, sz; unfold insideWall, candidate, anchorX, anchorY; simpl;
    unfold Qdiv; change (/ 2) with (1 # 2); repeat split; lra.
Qed.

Lemma hung_onWallPlane (tv : TVObject) :
  hung source tv ->
  exists sz szBuilt,
    onWallPlane tv (Config.width (sizeConfigs sz)) (Config.height (sizeConfigs sz)) /\
    VintageTV.size (design tv) = Some szBuilt /\
    scale tv = baseDims (Some szBuilt).
Proof.
  intros (wall & p & Hin & (sz & r1 & r2 & [H10 H11] & [H20 H21] & ->) & Hm).
  destruct Hm as (Hpos & Hrot & [szb Hsz] & Hsc).
  exists sz, szb. split; [|split; [exact Hsz | rewrite Hsc, Hsz; reflexivity]].
  unfold onWallPlane. rewrite Hpos, Hrot.
  simpl in Hin.
  destruct Hin as [<- | [<- | [<- | [<- | []]]]];
    destruct sz; unfold worldPosition, candidate, anchorX, anchorY; simpl;
    unfold Qdiv; change (/ 2) with (1 # 2);
    (split; [split; lra|]).
  all: first [ left; repeat split; lra
             | right; left; repeat split; lra
             | right; right; left; repeat split; lra
             | right; right; right; repeat split; lra ].
Qed.

Lemma unit_draws_twoSize (szPack szBuilt : VintageTV.Size) :
  unit_draws (twoSizeDraws szPack szBuilt).
Proof.
  intros k. unfold twoSizeDraws, sizeIndex.
  destruct k as [|[|[|[|[|k]]]]]; try (split; lra);
    [destruct szPack | destruct szBuilt]; split; lra.
Qed.

End HangingClaims.

(** X1.  Whatever [Math.random] draws, every footprint the completed layout
    records for a wall has the width and height of a size class and lies in
    the region the anchors are drawn from: between the two ends of the
    15-long wall along it and between floor and ceiling (0 and 8) up it,
    with half the footprint's extent to spare on each side. *)
Theorem footprints_stay_inside_wall (rand : nat -> Q) (fuel : nat) (s : ExhibitionScene.Scene)
        (Hrand : ExhibitionScene.unit_draws rand) (Hfuel : (100 <= fuel)%nat) :
  exists rs s',
    ExhibitionScene.addVintageTVWall rand ExhibitionScene.source fuel s = Ok rs s' /\
    Forall2 (fun wall r =>
               Forall (fun p =>
                         ExhibitionScene.insideWall ExhibitionScene.source
                           (ExhibitionScene.isSideWall wall) p /\
                         exists sz,
                           ExhibitionScene.Placed.width p
                             = ExhibitionScene.Config.width (ExhibitionScene.sizeConfigs sz) /\
                           ExhibitionScene.Placed.height p
                             = ExhibitionScene.Config.height (ExhibitionScene.sizeConfigs sz))
                      (ExhibitionScene.placedTVs (fst r)))
            (ExhibitionScene.walls ExhibitionScene.source) rs.
Proof.
  pose proof (addVintageTVWall_hung rand ExhibitionScene.source Hrand fuel s Hfuel) as H.
  apply post_ok in H. destruct H as (rs & s' & Heq & _ & Hrs).
  exists rs, s'. split; [exact Heq|].
  eapply Forall2_impl; [exact Hrs|].
  intros wall r Hr. eapply Forall_impl; [exact Hr|].
  intros p Hp. apply sampled_inside, Hp.
Qed.

Lemma footprints_stay_inside_wall_witness :
  ExhibitionScene.unit_draws ExhibitionScene.packedDraws /\ (100 <= 100)%nat /\
  exists rs s',
    ExhibitionScene.addVintageTVWall ExhibitionScene.packedDraws ExhibitionScene.source 100
      ExhibitionScene.emptyScene = Ok rs s' /\
    Forall2 (fun wall r =>
               Forall (fun p =>
                         ExhibitionScene.insideWall ExhibitionScene.source
                           (ExhibitionScene.isSideWall wall) p /\
                         exists sz,
                           ExhibitionScene.Placed.width p
                             = ExhibitionScene.Config.width (ExhibitionScene.sizeConfigs sz) /\
                           ExhibitionScene.Placed.height p
                             = ExhibitionScene.Config.height (ExhibitionScene.sizeConfigs sz))
                      (ExhibitionScene.placedTVs (fst r)))
            (ExhibitionScene.walls ExhibitionScene.source) rs.
Proof.
  split; [exact unit_draws_packed|]. split; [lia|].
  exact (footprints_stay_inside_wall ExhibitionScene.packedDraws 100
           ExhibitionScene.emptyScene unit_draws_packed (le_n 100)).
Defined.

(** X2.  Every television the layout adds to the scene sits on one of the
    four planes 0.1 inside a wall, turned by that wall's angle (0, PI,
    PI/2, -PI/2), at a height and a place along the wall that keep the
    footprint of some size class within the wall; it has a design size, and
    its scale is the one [baseDims] gives that size: 1, 1.25 or 1.5. *)
Theorem televisions_hang_on_the_walls (rand : nat -> Q) (fuel : nat)
        (s : ExhibitionScene.Scene)
        (Hrand : ExhibitionScene.unit_draws rand) (Hfuel : (100 <= fuel)%nat) :
  exists rs s' tvs,
    ExhibitionScene.addVintageTVWall rand ExhibitionScene.source fuel s = Ok rs s' /\
    ExhibitionScene.vintageTVs s' = ExhibitionScene.vintageTVs s ++ tvs /\
    Forall (fun tv =>
              exists sz szBuilt,
                ExhibitionScene.onWallPlane tv
                  (ExhibitionScene.Config.width (ExhibitionScene.sizeConfigs sz))
                  (ExhibitionScene.Config.height (ExhibitionScene.sizeConfigs sz)) /\
                VintageTV.size (ExhibitionScene.design tv) = Some szBuilt /\
                ExhibitionScene.scale tv = ExhibitionScene.baseDims (Some szBuilt) /\
                (ExhibitionScene.scale tv = 1.0 \/ ExhibitionScene.scale tv = 1.25 \/
                 ExhibitionScene.scale tv = 1.5)%Q) tvs.
Proof.
  pose proof (addVintageTVWall_hung rand ExhibitionScene.source Hrand fuel s Hfuel) as H.
  apply post_ok in H. destruct H as (rs & s' & Heq & (tvs & Htvs & Hh) & _).
  exists rs, s', tvs. split; [exact Heq|]. split; [exact Htvs|].
  eapply Forall_impl; [exact Hh|].
  intros tv Htv. destruct (hung_onWallPlane tv Htv) as (sz & szb & Hw & Hsz & Hsc).
  exists sz, szb. repeat split; try assumption.
  rewrite Hsc. destruct szb; simpl; auto.
Qed.

Lemma televisions_hang_on_the_walls_witness :
  ExhibitionScene.unit_draws ExhibitionScene.packedDraws /\ (100 <= 100)%nat /\
  exists rs s' tvs,
    ExhibitionScene.addVintageTVWall ExhibitionScene.packedDraws ExhibitionScene.source 100
      ExhibitionScene.emptyScene = Ok rs s' /\
    ExhibitionScene.vintageTVs s'
      = ExhibitionScene.vintageTVs ExhibitionScene.emptyScene ++ tvs /\
    Forall (fun tv =>
              exists sz szBuilt,
                ExhibitionScene.onWallPlane tv
                  (ExhibitionScene.Config.width (ExhibitionScene.sizeConfigs sz))
                  (ExhibitionScene.Config.height (ExhibitionScene.sizeConfigs sz)) /\
                VintageTV.size (ExhibitionScene.design tv) = Some szBuilt /\
                ExhibitionScene.scale tv = ExhibitionScene.baseDims (Some szBuilt) /\
                (ExhibitionScene.scale tv = 1.0 \/ ExhibitionScene.scale tv = 1.25 \/
                 ExhibitionScene.scale tv = 1.5)%Q) tvs.
Proof.
  split; [exact unit_draws_packed|]. split; [lia|].
  exact (televisions_hang_on_the_walls ExhibitionScene.packedDraws 100
           ExhibitionScene.emptyScene unit_draws_packed (le_n 100)).
Defined.

(** X3.  The size class that reserves a television's footprint and the size
    its design is built with come from different draws: for any two size
    classes there are draws under which the first television of the layout
    is packed with the footprint of the one and built, and scaled, as the
    other.  A television built large shows a casing of 1.8 by 1.35, wider
    than the footprint of every size class. *)
Theorem packed_and_built_sizes_are_independent (szPack szBuilt : VintageTV.Size) :
  (exists rand, ExhibitionScene.unit_draws rand /\
     exists st' s' p tv,
       ExhibitionScene.wallBody rand ExhibitionScene.source
         (ExhibitionScene.backWall ExhibitionScene.source)
         ExhibitionScene.freshWall ExhibitionScene.emptyScene = Ok st' s' /\
       ExhibitionScene.placedTVs st' = [p] /\
       ExhibitionScene.vintageTVs s' = [tv] /\
       ExhibitionScene.Placed.width p
         = ExhibitionScene.Config.width (ExhibitionScene.sizeConfigs szPack) /\
       ExhibitionScene.Placed.height p
         = ExhibitionScene.Config.height (ExhibitionScene.sizeConfigs szPack) /\
       VintageTV.size (ExhibitionScene.design tv) = Some szBuilt /\
       ExhibitionScene.renderedSize tv
         = Some (VintageTV.casing_width (VintageTV.casing szBuilt)
                   * ExhibitionScene.baseDims (Some szBuilt),
                 VintageTV.casing_height (VintageTV.casing szBuilt)
                   * ExhibitionScene.baseDims (Some szBuilt))%Q) /\
  (ExhibitionScene.Config.width (ExhibitionScene.sizeConfigs szPack)
   < VintageTV.casing_width (VintageTV.casing VintageTV.large)
     * ExhibitionScene.baseDims (Some VintageTV.large))%Q /\
  (forall k, VintageTV.getSizeDimensions (Some szBuilt) k
             = Ok (VintageTV.casing szBuilt) k).
Proof.
  split; [|split].
  - exists (ExhibitionScene.twoSizeDraws szPack szBuilt).
    split; [apply unit_draws_twoSize|].
    destruct szPack, szBuilt; eexists _, _, _, _;
      (split; [vm_compute; reflexivity|]); repeat split; reflexivity.
  - destruct szPack; reflexivity.
  - intros k. destruct szBuilt; reflexivity.
Qed.

Lemma layout_terminates_bound (rand : nat -> Q) (fuel k : nat) :
  ExhibitionScene.unit_draws rand -> (100 <= fuel)%nat ->
  exists rs s',
    ExhibitionScene.addVintageTVWall rand ExhibitionScene.source fuel
      {| ExhibitionScene.cursor := k; ExhibitionScene.vintageTVs := [] |} = Ok rs s' /\
    length (ExhibitionScene.vintageTVs s') = ExhibitionScene.placedCount rs /\
    (length (ExhibitionScene.vintageTVs s') <= 40)%nat.
Proof.
  intros Hrand Hfuel.
  pose proof (addVintageTVWall_spec rand ExhibitionScene.source Hrand fuel
                {| ExhibitionScene.cursor := k; ExhibitionScene.vintageTVs := [] |} Hfuel) as H.
  apply post_ok in H. destruct H as (rs & s' & Heq & Hdone & Hlen & Hscene).
  exists rs, s'. simpl in Hscene. split; [exact Heq|]. split; [exact Hscene|].
  pose proof (placedCount_bound ExhibitionScene.source rs Hdone) as Hb.
  rewrite Hlen in Hb. simpl in Hb. lia.
Qed.

(** X4.  The timers of [addVintageTVWall] start the televisions in the order
    they were placed, 200 ms apart from 2000 ms on: the television of index
    [i] in [this.vintageTVs] is due at [2000 + 200 * i] ms, which for a
    layout begun on an empty scene is at most 9800 ms. *)
Theorem playback_is_staggered (rand : nat -> Q) (fuel k : nat)
        (Hrand : ExhibitionScene.unit_draws rand) (Hfuel : (100 <= fuel)%nat) :
  exists rs s',
    ExhibitionScene.addVintageTVWall rand ExhibitionScene.source fuel
      {| ExhibitionScene.cursor := k; ExhibitionScene.vintageTVs := [] |} = Ok rs s' /\
    length (ExhibitionScene.playbackSchedule s') = ExhibitionScene.placedCount rs /\
    forall (i : nat) (d : Z) (tv : ExhibitionScene.TVObject),
      ExhibitionScene.playbackSchedule s' !! i = Some (d, tv) ->
      ExhibitionScene.vintageTVs s' !! i = Some tv /\
      d = (2000 + 200 * Z.of_nat i)%Z /\ (2000 <= d <= 9800)%Z.
Proof.
  destruct (layout_terminates_bound rand fuel k Hrand Hfuel) as (rs & s' & Heq & Hlen & Hle).
  exists rs, s'. split; [exact Heq|].
  unfold ExhibitionScene.playbackSchedule. rewrite length_imap.
  split; [exact Hlen|].
  intros i d tv Hi. rewrite list_lookup_imap in Hi.
  destruct (ExhibitionScene.vintageTVs s' !! i) as [tv'|] eqn:Htv; [|discriminate].
  simpl in Hi. injection Hi as <- <-.
  apply lookup_lt_Some in Htv.
  unfold ExhibitionScene.startDelay. repeat split; lia.
Qed.

Lemma playback_is_staggered_witness :
  ExhibitionScene.unit_draws ExhibitionScene.packedDraws /\ (100 <= 100)%nat /\
  exists rs s',
    ExhibitionScene.addVintageTVWall ExhibitionScene.packedDraws ExhibitionScene.source 100
      {| ExhibitionScene.cursor := 0; ExhibitionScene.vintageTVs := [] |} = Ok rs s' /\
    length (ExhibitionScene.playbackSchedule s') = ExhibitionScene.placedCount rs.
Proof.
  split; [exact unit_draws_packed|]. split; [lia|].
  destruct (playback_is_staggered ExhibitionScene.packedDraws 100 0
              unit_draws_packed (le_n 100)) as (rs & s' & Heq & Hlen & _).
  exists rs, s'. split; assumption.
Defined.

(** X5.  Under the contract of [Math.random], [createControlKnobs] uses one
    draw and makes one or two knobs; on the casing of any size and for any
    knob position, each knob is centred at least 0.05 (a knob's radius)
    inside the edges of the casing's front face. *)
Theorem knobs_sit_on_the_casing (rand : nat -> Q) (d : VintageTV.TVDesign)
        (sz : VintageTV.Size) (p : VintageTV.KnobPosition) (k : nat)
        (Hrand : ExhibitionScene.unit_draws rand)
        (Hpos : VintageTV.knobPosition d = Some p) :
  exists knobCount,
    VintageTV.createControlKnobs rand d k = Ok knobCount (S k) /\
    (knobCount = 1 \/ knobCount = 2)%Z /\
    length (VintageTV.knobs (VintageTV.casing sz) p knobCount) = Z.to_nat knobCount /\
    Forall (fun knob =>
              let '(x, y, _) := knob in
              (- (VintageTV.casing_width (VintageTV.casing sz) / 2) + 0.05 <= x /\
               x <= VintageTV.casing_width (VintageTV.casing sz) / 2 - 0.05 /\
               - (VintageTV.casing_height (VintageTV.casing sz) / 2) + 0.05 <= y /\
               y <= VintageTV.casing_height (VintageTV.casing sz) / 2 - 0.05)%Q)
           (VintageTV.knobs (VintageTV.casing sz) p knobCount).
Proof.
  destruct (Hrand k) as [H0 H1].
  assert (Hf : (JS.floor (rand k * 2) = 0 \/ JS.floor (rand k * 2) = 1)%Z).
  { unfold JS.floor.
    assert (Hlo : (0 <= Qfloor (rand k * 2))%Z).
    { change 0%Z with (Qfloor 0). apply Qfloor_resp_le. lra. }
    assert (Hhi : (Qfloor (rand k * 2) < 2)%Z).
    { rewrite Zlt_Qlt. eapply Qle_lt_trans; [apply Qfloor_le|].
      change (inject_Z 2) with 2%Q. lra. }
    lia. }
  exists (JS.floor (rand k * 2) + 1)%Z.
  split.
  - unfold VintageTV.createControlKnobs, mbind, M_bind, bind, VintageTV.random.
    rewrite Hpos. destruct (_ <? _)%Z; reflexivity.
  - destruct Hf as [-> | ->]; (split; [lia|]); (split; [reflexivity|]);
      destruct sz, p; unfold VintageTV.knobs; simpl;
      repeat (apply List.Forall_cons;
              [repeat split; vm_compute; discriminate|]);
      apply List.Forall_nil.
Qed.

Lemma knobs_sit_on_the_casing_witness :
  ExhibitionScene.unit_draws ExhibitionScene.zeroDraws /\
  exists knobCount,
    VintageTV.createControlKnobs ExhibitionScene.zeroDraws
      {| VintageTV.name := 0; VintageTV.size := Some VintageTV.small;
         VintageTV.casingColor := None; VintageTV.hasWoodGrain := false;
         VintageTV.woodColor := 0; VintageTV.knobColor := None;
         VintageTV.knobPosition := Some VintageTV.bottom |} 0
    = Ok knobCount 1%nat /\
    (knobCount = 1 \/ knobCount = 2)%Z.
Proof.
  split; [exact unit_draws_zero|].
  destruct (knobs_sit_on_the_casing ExhibitionScene.zeroDraws
              {| VintageTV.name := 0; VintageTV.size := Some VintageTV.small;
                 VintageTV.casingColor := None; VintageTV.hasWoodGrain := false;
                 VintageTV.woodColor := 0; VintageTV.knobColor := None;
                 VintageTV.knobPosition := Some VintageTV.bottom |}
              VintageTV.small VintageTV.bottom 0 unit_draws_zero eq_refl)
    as (n & Heq & Hn & _).
  exists n. split; assumption.
Defined.

(** ** The controller: bounds, speed and keys *)

Section Motion.
Import Three FPSCameraControls.
Open Scope R_scope.

Lemma clamp_min (lo hi v : R) : lo <= Rmax lo (Rmin hi v).
Proof. apply Rmax_l. Qed.

Lemma clamp_inverted (lo hi v : R) : hi < lo -> Rmax lo (Rmin hi v) = lo.
Proof.
  intros H. apply Rmax_left. pose proof (Rmin_l hi v). lra.
Qed.

(** A clamp moves a point that was inside no further than the step. *)
Lemma clamp_step (lo hi p v : R) :
  lo <= p <= hi -> Rabs (Rmax lo (Rmin hi (p + v)) - p) <= Rabs v.
Proof.
  intros [H1 H2]. unfold Rmax, Rmin.
  destruct (Rle_dec hi (p + v)); destruct (Rle_dec lo _);
    unfold Rabs; repeat destruct (Rcase_abs _); lra.
Qed.

Lemma component_le_length (v : Vector3) :
  Rabs (x v) <= length v /\ Rabs (y v) <= length v /\ Rabs (z v) <= length v.
Proof.
  pose proof (length_nonneg v) as Hl. pose proof (length_sq v) as Hs.
  repeat split; apply Rabs_le; split; nra.
Qed.

Lemma tickVelocity_cap (st : State) : length (tickVelocity st) <= 0.076.
Proof.
  unfold tickVelocity. rewrite length_multiplyScalar by (unfold friction; lra).
  pose proof (limitVelocity_length (add (velocity st) (tickAcceleration st))) as H.
  unfold maxVelocity in H. unfold friction. lra.
Qed.

Lemma normalize_flat_y (v : Vector3) : y (normalize (setY v 0)) = 0.
Proof.
  unfold normalize, divideScalar, multiplyScalar, setY. simpl. ring.
Qed.

End Motion.

(** X6.  [setBounds] replaces each of the six bounds it is given and keeps
    each of the others; it changes nothing else, so the camera is not moved
    even when it is now outside the bounds.  Two calls compose to one call
    with the merged argument, in which the later call's fields win, and a
    call with no field is the identity. *)
Theorem setBounds_is_a_partial_update
        (st : FPSCameraControls.State) (p q : FPSCameraControls.PartialBounds) :
  let st' := FPSCameraControls.setBounds st p in
  let b := FPSCameraControls.bounds st in
  let b' := FPSCameraControls.bounds st' in
  FPSCameraControls.camera st' = FPSCameraControls.camera st /\
  FPSCameraControls.velocity st' = FPSCameraControls.velocity st /\
  FPSCameraControls.acceleration st' = FPSCameraControls.acceleration st /\
  FPSCameraControls.keys st' = FPSCameraControls.keys st /\
  FPSCameraControls.isPointerLocked st' = FPSCameraControls.isPointerLocked st /\
  FPSCameraControls.pitch st' = FPSCameraControls.pitch st /\
  FPSCameraControls.yaw st' = FPSCameraControls.yaw st /\
  FPSCameraControls.updated (FPSCameraControls.minX b) (FPSCameraControls.p_minX p)
    (FPSCameraControls.minX b') /\
  FPSCameraControls.updated (FPSCameraControls.maxX b) (FPSCameraControls.p_maxX p)
    (FPSCameraControls.maxX b') /\
  FPSCameraControls.updated (FPSCameraControls.minY b) (FPSCameraControls.p_minY p)
    (FPSCameraControls.minY b') /\
  FPSCameraControls.updated (FPSCameraControls.maxY b) (FPSCameraControls.p_maxY p)
    (FPSCameraControls.maxY b') /\
  FPSCameraControls.updated (FPSCameraControls.minZ b) (FPSCameraControls.p_minZ p)
    (FPSCameraControls.minZ b') /\
  FPSCameraControls.updated (FPSCameraControls.maxZ b) (FPSCameraControls.p_maxZ p)
    (FPSCameraControls.maxZ b') /\
  FPSCameraControls.setBounds st' q
    = FPSCameraControls.setBounds st (FPSCameraControls.mergePartial p q) /\
  FPSCameraControls.setBounds st FPSCameraControls.noBounds = st.
Proof.
  intros st' b b'. subst st' b b'.
  unfold FPSCameraControls.setBounds, FPSCameraControls.updated. simpl.
  destruct p as [a1 a2 a3 a4 a5 a6]. simpl.
  repeat (split; [reflexivity|]).
  repeat (split; [match goal with
                  | |- match ?a with _ => _ end => destruct a; reflexivity
                  end|]).
  split.
  - destruct q as [b1 b2 b3 b4 b5 b6]. simpl.
    destruct b1, b2, b3, b4, b5, b6; reflexivity.
  - destruct st as [c k l pi ya v a b]. destruct b. reflexivity.
Qed.

Lemma setBounds_is_a_partial_update_witness :
  let p := {| FPSCameraControls.p_minX := None; FPSCameraControls.p_maxX := Some 3%R;
              FPSCameraControls.p_minZ := Some (-2)%R; FPSCameraControls.p_maxZ := None;
              FPSCameraControls.p_minY := None; FPSCameraControls.p_maxY := None |} in
  let b' := FPSCameraControls.bounds
              (FPSCameraControls.setBounds FPSCameraControls.initial p) in
  FPSCameraControls.minX b' = (-7)%R /\ FPSCameraControls.maxX b' = 3%R /\
  FPSCameraControls.minY b' = 1%R /\ FPSCameraControls.maxY b' = 8%R /\
  FPSCameraControls.minZ b' = (-2)%R /\ FPSCameraControls.maxZ b' = 7%R.
Proof.
  intros p b'. subst b'.
  pose proof (setBounds_is_a_partial_update FPSCameraControls.initial p
                FPSCameraControls.noBounds) as H.
  cbv zeta in H.
  destruct H as (_ & _ & _ & _ & _ & _ & _ & H1 & H2 & H3 & H4 & H5 & H6 & _).
  split; [exact H1|]. split; [exact H2|]. split; [exact H3|].
  split; [exact H4|]. split; [exact H5 | exact H6].
Defined.

(** X7.  A locked [update] never leaves the camera below a lower bound, even
    when the bounds are inverted; on an axis whose upper bound is below its
    lower bound it puts the camera on the lower bound, whatever the position
    and the velocity were. *)
Theorem inverted_bounds_pin_to_minimum (st : FPSCameraControls.State)
        (Hlocked : FPSCameraControls.isPointerLocked st = true) :
  let b := FPSCameraControls.bounds st in
  let p := Three.position (FPSCameraControls.camera (FPSCameraControls.update st)) in
  (FPSCameraControls.minX b <= Three.x p)%R /\
  (FPSCameraControls.minY b <= Three.y p)%R /\
  (FPSCameraControls.minZ b <= Three.z p)%R /\
  ((FPSCameraControls.maxX b < FPSCameraControls.minX b)%R ->
   Three.x p = FPSCameraControls.minX b) /\
  ((FPSCameraControls.maxY b < FPSCameraControls.minY b)%R ->
   Three.y p = FPSCameraControls.minY b) /\
  ((FPSCameraControls.maxZ b < FPSCameraControls.minZ b)%R ->
   Three.z p = FPSCameraControls.minZ b).
Proof.
  intros b p. subst p b.
  destruct (update_locked st Hlocked) as (_ & _ & _ & _ & Hp).
  rewrite Hp. unfold FPSCameraControls.applyBounds. simpl.
  repeat split; try apply clamp_min; intros H; apply clamp_inverted, H.
Qed.

Lemma inverted_bounds_pin_to_minimum_witness :
  FPSCameraControls.isPointerLocked
    (FPSCameraControls.setBounds FPSCameraControls.atEastWall
       {| FPSCameraControls.p_minX := Some 3%R; FPSCameraControls.p_maxX := Some 1%R;
          FPSCameraControls.p_minZ := None; FPSCameraControls.p_maxZ := None;
          FPSCameraControls.p_minY := None; FPSCameraControls.p_maxY := None |}) = true /\
  Three.x (Three.position (FPSCameraControls.camera
     (FPSCameraControls.update
        (FPSCameraControls.setBounds FPSCameraControls.atEastWall
           {| FPSCameraControls.p_minX := Some 3%R; FPSCameraControls.p_maxX := Some 1%R;
              FPSCameraControls.p_minZ := None; FPSCameraControls.p_maxZ := None;
              FPSCameraControls.p_minY := None; FPSCameraControls.p_maxY := None |}))))
  = 3%R.
Proof.
  split; [reflexivity|].
  pose proof (inverted_bounds_pin_to_minimum
                (FPSCameraControls.setBounds FPSCameraControls.atEastWall
                   {| FPSCameraControls.p_minX := Some 3%R;
                      FPSCameraControls.p_maxX := Some 1%R;
                      FPSCameraControls.p_minZ := None; FPSCameraControls.p_maxZ := None;
                      FPSCameraControls.p_minY := None; FPSCameraControls.p_maxY := None |})
                eq_refl) as H.
  cbv zeta in H. destruct H as (_ & _ & _ & H & _).
  apply H. simpl. lra.
Defined.

(** X8.  A locked [update] stores a velocity no faster than 0.076 (the limit
    0.08 times the friction), whatever the keys and the old velocity; when
    the camera starts within its bounds the tick moves it by at most 0.076
    along each axis. *)
Theorem tick_speed_is_capped (st : FPSCameraControls.State)
        (Hlocked : FPSCameraControls.isPointerLocked st = true)
        (Hin : FPSCameraControls.withinBounds (FPSCameraControls.bounds st)
                 (Three.position (FPSCameraControls.camera st))) :
  let p := Three.position (FPSCameraControls.camera st) in
  let p' := Three.position (FPSCameraControls.camera (FPSCameraControls.update st)) in
  (Three.length (FPSCameraControls.velocity (FPSCameraControls.update st)) <= 0.076)%R /\
  (Rabs (Three.x p' - Three.x p) <= 0.076)%R /\
  (Rabs (Three.y p' - Three.y p) <= 0.076)%R /\
  (Rabs (Three.z p' - Three.z p) <= 0.076)%R /\
  FPSCameraControls.withinBounds (FPSCameraControls.bounds st) p'.
Proof.
  intros p p'. subst p p'.
  destruct (update_locked st Hlocked) as (Hv & _ & _ & _ & Hp).
  destruct Hin as (HX & HY & HZ).
  pose proof (tickVelocity_cap st) as Hcap.
  destruct (component_le_length (FPSCameraControls.tickVelocity st)) as (Cx & Cy & Cz).
  rewrite Hv, Hp.
  unfold FPSCameraControls.applyBounds, FPSCameraControls.withinBounds, Three.add.
  cbn [Three.x Three.y Three.z].
  split; [exact Hcap|].
  split; [eapply Rle_trans; [apply clamp_step; exact HX | lra]|].
  split; [eapply Rle_trans; [apply clamp_step; exact HY | lra]|].
  split; [eapply Rle_trans; [apply clamp_step; exact HZ | lra]|].
  split; [apply clamp_between; lra | split; apply clamp_between; lra].
Qed.

Lemma tick_speed_is_capped_witness :
  FPSCameraControls.isPointerLocked FPSCameraControls.atEastWall = true /\
  FPSCameraControls.withinBounds (FPSCameraControls.bounds FPSCameraControls.atEastWall)
    (Three.position (FPSCameraControls.camera FPSCameraControls.atEastWall)) /\
  (Three.length (FPSCameraControls.velocity
                   (FPSCameraControls.update FPSCameraControls.atEastWall)) <= 0.076)%R.
Proof.
  assert (Hin : FPSCameraControls.withinBounds
                  (FPSCameraControls.bounds FPSCameraControls.atEastWall)
                  (Three.position (FPSCameraControls.camera FPSCameraControls.atEastWall))).
  { unfold FPSCameraControls.withinBounds. simpl. repeat split; lra. }
  split; [reflexivity|]. split; [exact Hin|].
  exact (proj1 (tick_speed_is_capped FPSCameraControls.atEastWall eq_refl Hin)).
Defined.

Section Keys.
Import Three FPSCameraControls.
Open Scope R_scope.

Lemma friction_41 : 0.08 * 0.95 ^ 41 <= 0.01.
Proof.
  assert (H8 : 0.95 ^ 8 <= 0.6635) by (simpl; lra).
  assert (H0 : 0 <= 0.95 ^ 8) by (apply pow_le; lra).
  replace 41%nat with (8 + 8 + 8 + 8 + 8 + 1)%nat by reflexivity.
  rewrite !pow_add. simpl (0.95 ^ 1).
  set (a := 0.95 ^ 8) in *.
  assert (H2 : a * a <= 0.6635 * 0.6635) by nra.
  assert (H2' : 0 <= a * a) by nra.
  assert (H4 : (a * a) * (a * a) <= (0.6635 * 0.6635) * (0.6635 * 0.6635)) by nra.
  assert (H4' : 0 <= (a * a) * (a * a)) by nra.
  assert (H5 : (a * a) * (a * a) * a <= (0.6635 * 0.6635) * (0.6635 * 0.6635) * 0.6635)
    by nra.
  nra.
Qed.

Lemma pow_friction_antitone (n m : nat) : (n <= m)%nat -> 0.95 ^ m <= 0.95 ^ n.
Proof.
  intros H. replace m with (n + (m - n))%nat by lia. rewrite pow_add.
  assert (0 <= 0.95 ^ n) by (apply pow_le; lra).
  assert (0.95 ^ (m - n) <= 1) by (apply pow_incr_le_1 || (rewrite <- (pow1 (m - n)); apply pow_incr; lra)).
  nra.
Qed.

(** The horizontal keys and the vertical keys act apart: whatever the
    camera's rotation, the vertical acceleration of a tick is the vertical
    intent times [moveSpeed]. *)
Lemma tickAcceleration_y (st : State) :
  y (tickAcceleration st) = verticalIntent st * moveSpeed.
Proof.
  unfold tickAcceleration, movementBasis, inputDirection, verticalIntent. cbn [fst snd].
  set (f := normalize _). set (r := normalize _).
  assert (Hf : y f = 0) by apply normalize_flat_y.
  assert (Hr : y r = 0) by apply normalize_flat_y.
  destruct (held st "KeyW"), (held st "KeyS"), (held st "KeyA"), (held st "KeyD"),
    (held st "Space"), (held st "ShiftLeft");
    unfold multiplyScalar, add, sub, setY; cbn [x y z]; rewrite ?Hf, ?Hr; ring.
Qed.

(** Opposite keys cancel. *)
Lemma tickAcceleration_cancel (st : State) :
  held st "KeyW" = held st "KeyS" -> held st "KeyA" = held st "KeyD" ->
  held st "Space" = held st "ShiftLeft" ->
  tickAcceleration st = vec 0 0 0.
Proof.
  intros HWS HAD HV.
  unfold tickAcceleration, movementBasis, inputDirection. cbn [fst snd].
  set (f := normalize _). set (r := normalize _).
  rewrite HWS, HAD, HV.
  destruct (held st "KeyS"), (held st "KeyD"), (held st "ShiftLeft");
    unfold multiplyScalar, add, sub, setY; cbn [x y z]; f_equal; ring.
Qed.

End Keys.

(** X9.  Coasting comes to rest: from a speed within the limit, with the
    pointer locked and no movement key down, [isMoving()] answers false
    after 41 ticks and from then on. *)
Theorem coasting_comes_to_rest (st : FPSCameraControls.State) (n : nat)
        (Hlocked : FPSCameraControls.isPointerLocked st = true)
        (Hkeys : FPSCameraControls.noKeysHeld st)
        (Hspeed : (Three.length (FPSCameraControls.velocity st)
                   <= FPSCameraControls.maxVelocity)%R)
        (Hn : (41 <= n)%nat) :
  FPSCameraControls.isMoving (FPSCameraControls.ticks n st) = false /\
  (Three.length (FPSCameraControls.velocity (FPSCameraControls.ticks n st)) <= 0.01)%R.
Proof.
  assert (Hlen : (Three.length (FPSCameraControls.velocity (FPSCameraControls.ticks n st))
                  <= 0.01)%R).
  { rewrite ticks_coast by assumption.
    rewrite length_multiplyScalar by (apply pow_le; unfold FPSCameraControls.friction; lra).
    pose proof (pow_friction_antitone 41 n Hn) as Hp.
    pose proof friction_41 as H41.
    pose proof (length_nonneg (FPSCameraControls.velocity st)) as H0.
    assert (0 <= 0.95 ^ n)%R by (apply pow_le; lra).
    unfold FPSCameraControls.friction, FPSCameraControls.maxVelocity in *. nra. }
  split; [|exact Hlen].
  unfold FPSCameraControls.isMoving.
  destruct (Rlt_dec 0.01 _); [lra | reflexivity].
Qed.

Lemma coasting_comes_to_rest_witness :
  FPSCameraControls.isPointerLocked FPSCameraControls.atEastWall = true /\
  FPSCameraControls.noKeysHeld FPSCameraControls.atEastWall /\
  (41 <= 41)%nat /\
  FPSCameraControls.isMoving
    (FPSCameraControls.ticks 41 FPSCameraControls.atEastWall) = false.
Proof.
  assert (Hk : FPSCameraControls.noKeysHeld FPSCameraControls.atEastWall)
    by (repeat split).
  assert (Hs : (Three.length (FPSCameraControls.velocity FPSCameraControls.atEastWall)
                <= FPSCameraControls.maxVelocity)%R).
  { unfold Three.length, FPSCameraControls.maxVelocity. simpl.
    replace (0.05 * 0.05 + 0 * 0 + 0 * 0)%R with (0.05 * 0.05)%R by ring.
    rewrite sqrt_square by lra. lra. }
  split; [reflexivity|]. split; [exact Hk|]. split; [lia|].
  exact (proj1 (coasting_comes_to_rest FPSCameraControls.atEastWall 41
                  eq_refl Hk Hs (le_n 41))).
Defined.

(** X10.  Opposite keys cancel: with W and S in the same state, A and D in
    the same state and Space and ShiftLeft in the same state, a locked tick
    accelerates nothing, so the velocity is only limited and damped; within
    the speed limit it is the old velocity times 0.95, as when coasting. *)
Theorem opposite_keys_cancel (st : FPSCameraControls.State)
        (Hlocked : FPSCameraControls.isPointerLocked st = true)
        (HWS : FPSCameraControls.held st "KeyW" = FPSCameraControls.held st "KeyS")
        (HAD : FPSCameraControls.held st "KeyA" = FPSCameraControls.held st "KeyD")
        (HV : FPSCameraControls.held st "Space" = FPSCameraControls.held st "ShiftLeft") :
  FPSCameraControls.acceleration (FPSCameraControls.update st) = Three.vec 0 0 0 /\
  FPSCameraControls.velocity (FPSCameraControls.update st)
    = Three.multiplyScalar
        (FPSCameraControls.limitVelocity (FPSCameraControls.velocity st)) 0.95 /\
  ((Three.length (FPSCameraControls.velocity st) <= FPSCameraControls.maxVelocity)%R ->
   FPSCameraControls.velocity (FPSCameraControls.update st)
     = Three.multiplyScalar (FPSCameraControls.velocity st) 0.95).
Proof.
  pose proof (tickAcceleration_cancel st HWS HAD HV) as Ha.
  assert (Hv : FPSCameraControls.velocity (FPSCameraControls.update st)
               = Three.multiplyScalar
                   (FPSCameraControls.limitVelocity (FPSCameraControls.velocity st)) 0.95).
  { destruct (update_locked st Hlocked) as (Hv & _). rewrite Hv.
    unfold FPSCameraControls.tickVelocity. rewrite Ha, add_zero. reflexivity. }
  split; [|split; [exact Hv|]].
  - unfold FPSCameraControls.update. rewrite Hlocked. simpl. exact Ha.
  - intros Hs. rewrite Hv, limitVelocity_id by exact Hs. reflexivity.
Qed.

Lemma opposite_keys_cancel_witness :
  FPSCameraControls.isPointerLocked (FPSCameraControls.holding ["KeyW"; "KeyS"]%string)
    = true /\
  FPSCameraControls.held (FPSCameraControls.holding ["KeyW"; "KeyS"]%string) "KeyW" = true /\
  FPSCameraControls.acceleration
    (FPSCameraControls.update (FPSCameraControls.holding ["KeyW"; "KeyS"]%string))
  = Three.vec 0 0 0.
Proof.
  split; [reflexivity|]. split; [reflexivity|].
  exact (proj1 (opposite_keys_cancel (FPSCameraControls.holding ["KeyW"; "KeyS"]%string)
                  eq_refl eq_refl eq_refl eq_refl)).
Defined.

(** X11.  Walking keeps the eye height.  Whatever the camera's rotation and
    the horizontal keys, a tick accelerates vertically by the vertical
    intent (Space minus ShiftLeft) times 0.01.  So with the pointer locked,
    neither vertical key down, no vertical velocity and the height within
    its bounds, [update] leaves the vertical velocity at 0 and the height
    where it was. *)
Theorem walking_keeps_eye_height (st : FPSCameraControls.State)
        (Hlocked : FPSCameraControls.isPointerLocked st = true)
        (Hspace : FPSCameraControls.held st "Space" = false)
        (Hshift : FPSCameraControls.held st "ShiftLeft" = false)
        (Hvy : Three.y (FPSCameraControls.velocity st) = 0%R)
        (Hy : (FPSCameraControls.minY (FPSCameraControls.bounds st)
               <= Three.y (Three.position (FPSCameraControls.camera st))
               <= FPSCameraControls.maxY (FPSCameraControls.bounds st))%R) :
  (forall st' : FPSCameraControls.State,
      Three.y (FPSCameraControls.tickAcceleration st')
      = (FPSCameraControls.verticalIntent st' * 0.01)%R) /\
  Three.y (FPSCameraControls.velocity (FPSCameraControls.update st)) = 0%R /\
  Three.y (Three.position (FPSCameraControls.camera (FPSCameraControls.update st)))
    = Three.y (Three.position (FPSCameraControls.camera st)).
Proof.
  split; [intros st'; apply tickAcceleration_y|].
  destruct (update_locked st Hlocked) as (Hv & _ & _ & _ & Hp).
  assert (Hay : Three.y (FPSCameraControls.tickAcceleration st) = 0%R).
  { rewrite tickAcceleration_y. unfold FPSCameraControls.verticalIntent.
    rewrite Hspace, Hshift. ring. }
  assert (Hty : Three.y (FPSCameraControls.tickVelocity st) = 0%R).
  { unfold FPSCameraControls.tickVelocity, FPSCameraControls.limitVelocity.
    destruct (Rlt_dec _ _);
      unfold Three.normalize, Three.divideScalar, Three.multiplyScalar, Three.add;
      cbn [Three.x Three.y Three.z]; rewrite Hvy, Hay; ring. }
  split; [rewrite Hv; exact Hty|].
  rewrite Hp. unfold FPSCameraControls.applyBounds, Three.add. cbn [Three.x Three.y Three.z].
  rewrite Hty, Rplus_0_r. apply clamp_id, Hy.
Qed.

Lemma walking_keeps_eye_height_witness :
  FPSCameraControls.isPointerLocked (FPSCameraControls.holding ["KeyW"; "KeyD"]%string)
    = true /\
  FPSCameraControls.held (FPSCameraControls.holding ["KeyW"; "KeyD"]%string) "Space" = false /\
  Three.y (Three.position (FPSCameraControls.camera
     (FPSCameraControls.update (FPSCameraControls.holding ["KeyW"; "KeyD"]%string))))
  = Three.y (Three.position (FPSCameraControls.camera
               (FPSCameraControls.holding ["KeyW"; "KeyD"]%string))).
Proof.
  assert (Hy : (FPSCameraControls.minY
                  (FPSCameraControls.bounds (FPSCameraControls.holding ["KeyW"; "KeyD"]%string))
                <= Three.y (Three.position (FPSCameraControls.camera
                             (FPSCameraControls.holding ["KeyW"; "KeyD"]%string)))
                <= FPSCameraControls.maxY
                     (FPSCameraControls.bounds
                        (FPSCameraControls.holding ["KeyW"; "KeyD"]%string)))%R)
    by (simpl; lra).
  split; [reflexivity|]. split; [reflexivity|].
  exact (proj2 (proj2 (walking_keeps_eye_height
                         (FPSCameraControls.holding ["KeyW"; "KeyD"]%string)
                         eq_refl eq_refl eq_refl eq_refl Hy))).
Defined.

Section Diagonal.
Import Three FPSCameraControls.
Open Scope R_scope.

(** The movement basis of a reachable state that does not look straight up
    or down. *)
Lemma run_basis (es : list Event) :
  - PI / 2 < pitch (run es) < PI / 2 ->
  movementBasis (quaternion (camera (run es)))
  = (vec (- sin (yaw (run es))) 0 (- cos (yaw (run es))),
     vec (cos (yaw (run es))) 0 (- sin (yaw (run es)))).
Proof.
  intros Hp. rewrite run_orientation.
  destruct (movementBasis_look (pitch (run es)) (yaw (run es))) as (Hr & Hf & _).
  cbv zeta in Hr, Hf.
  assert (Hc : 0 < cos (pitch (run es))) by (apply cos_gt_0; lra).
  specialize (Hf Hc).
  rewrite (surjective_pairing (movementBasis _)), Hf, Hr. reflexivity.
Qed.

End Diagonal.

(** X12.  Forward and right are perpendicular, and key intents add without
    being renormalised: in a reachable state that does not look straight up
    or down, holding W and D alone accelerates by [0.01 * sqrt 2] per tick,
    against 0.01 for W alone. *)
Theorem diagonal_keys_add_up (es : list FPSCameraControls.Event)
        (Hpitch : (- PI / 2 < FPSCameraControls.pitch (FPSCameraControls.run es) < PI / 2)%R)
        (HW : FPSCameraControls.held (FPSCameraControls.run es) "KeyW" = true)
        (HS : FPSCameraControls.held (FPSCameraControls.run es) "KeyS" = false)
        (HA : FPSCameraControls.held (FPSCameraControls.run es) "KeyA" = false)
        (Hsp : FPSCameraControls.held (FPSCameraControls.run es) "Space" = false)
        (Hsh : FPSCameraControls.held (FPSCameraControls.run es) "ShiftLeft" = false) :
  let st := FPSCameraControls.run es in
  let basis := FPSCameraControls.movementBasis
                 (Three.quaternion (FPSCameraControls.camera st)) in
  FPSCameraControls.dot (fst basis) (snd basis) = 0%R /\
  (FPSCameraControls.held st "KeyD" = true ->
   Three.length (FPSCameraControls.tickAcceleration st) = (0.01 * sqrt 2)%R) /\
  (FPSCameraControls.held st "KeyD" = false ->
   Three.length (FPSCameraControls.tickAcceleration st) = 0.01%R).
Proof.
  intros st basis. subst st basis.
  pose proof (sin2_cos2 (FPSCameraControls.yaw (FPSCameraControls.run es))) as Hsc.
  unfold Rsqr in Hsc.
  rewrite (run_basis es Hpitch). cbn [fst snd].
  split; [unfold FPSCameraControls.dot; simpl; ring|].
  unfold FPSCameraControls.tickAcceleration.
  rewrite (run_basis es Hpitch). cbn [fst snd].
  unfold FPSCameraControls.inputDirection.
  rewrite HW, HS, HA, Hsp, Hsh.
  split; intros ->;
    rewrite length_multiplyScalar by (unfold FPSCameraControls.moveSpeed; lra);
    unfold FPSCameraControls.moveSpeed, Three.length, Three.add;
    cbn [Three.x Three.y Three.z].
  - f_equal. f_equal. nra.
  - match goal with |- (_ * sqrt ?e)%R = _ => replace e with 1%R by nra end.
    rewrite sqrt_1. ring.
Qed.

Lemma diagonal_keys_add_up_witness :
  (- PI / 2
   < FPSCameraControls.pitch
       (FPSCameraControls.run [FPSCameraControls.KeyDown "KeyW";
                               FPSCameraControls.KeyDown "KeyD"]) < PI / 2)%R /\
  FPSCameraControls.held
    (FPSCameraControls.run [FPSCameraControls.KeyDown "KeyW";
                            FPSCameraControls.KeyDown "KeyD"]) "KeyW" = true /\
  Three.length
    (FPSCameraControls.tickAcceleration
       (FPSCameraControls.run [FPSCameraControls.KeyDown "KeyW";
                               FPSCameraControls.KeyDown "KeyD"]))
  = (0.01 * sqrt 2)%R.
Proof.
  assert (Hp : (- PI / 2
                < FPSCameraControls.pitch
                    (FPSCameraControls.run [FPSCameraControls.KeyDown "KeyW";
                                            FPSCameraControls.KeyDown "KeyD"]) < PI / 2)%R)
    by (simpl; pose proof PI_RGT_0; lra).
  split; [exact Hp|]. split; [reflexivity|].
  pose proof (diagonal_keys_add_up [FPSCameraControls.KeyDown "KeyW";
                                    FPSCameraControls.KeyDown "KeyD"]
                Hp eq_refl eq_refl eq_refl eq_refl eq_refl) as H.
  cbv zeta in H. destruct H as (_ & H & _). exact (H eq_refl).
Defined.

(** ** The controller: pointer lock, listeners and keys *)

(** X13.  After a [pointerlockchange] event the flag says whether the canvas
    itself holds the lock (a lock held by another element counts as
    released), and the [mousemove] handler is registered exactly when the
    flag is set; handling the same event again changes nothing.  A click
    asks for the lock exactly when the flag is clear, and neither takes nor
    gives up the lock, nor touches a listener. *)
Theorem pointer_lock_follows_the_host (st : FPSCameraControls.State)
        (h : FPSCameraControls.Host) :
  let st' := fst (FPSCameraControls.onPointerLockChange st h) in
  let h' := snd (FPSCameraControls.onPointerLockChange st h) in
  (FPSCameraControls.isPointerLocked st' = true <->
   FPSCameraControls.pointerLockElement h = Some FPSCameraControls.domElement) /\
  ("mousemove" ∈ FPSCameraControls.listeners h' <->
   FPSCameraControls.isPointerLocked st' = true) /\
  FPSCameraControls.pointerLockElement h' = FPSCameraControls.pointerLockElement h /\
  FPSCameraControls.calls h' = FPSCameraControls.calls h /\
  FPSCameraControls.onPointerLockChange st' h' = (st', h') /\
  FPSCameraControls.calls (FPSCameraControls.onClick st h)
    = FPSCameraControls.calls h ++
      (if FPSCameraControls.isPointerLocked st then []
       else [FPSCameraControls.RequestPointerLock]) /\
  FPSCameraControls.pointerLockElement (FPSCameraControls.onClick st h)
    = FPSCameraControls.pointerLockElement h /\
  FPSCameraControls.listeners (FPSCameraControls.onClick st h)
    = FPSCameraControls.listeners h.
Proof.
  intros st' h'. subst st' h'.
  unfold FPSCameraControls.onPointerLockChange, FPSCameraControls.onClick. cbn [fst snd].
  destruct h as [e L c]. cbn [FPSCameraControls.pointerLockElement].
  assert (Hiff : FPSCameraControls.isDomElement e = true
                 <-> e = Some FPSCameraControls.domElement).
  { destruct e as [[|]|]; simpl; split; congruence. }
  split; [exact Hiff|].
  destruct (FPSCameraControls.isDomElement e) eqn:He; simpl.
  - split.
    { split; [reflexivity|]. intros _. apply elem_of_union_l, elem_of_singleton.
      reflexivity. }
    split; [reflexivity|]. split; [reflexivity|]. rewrite He. simpl.
    split.
    { f_equal. unfold FPSCameraControls.addEventListener. simpl. f_equal.
      apply leibniz_equiv. rewrite (assoc_L _). rewrite union_idemp_L. reflexivity. }
    destruct (FPSCameraControls.isPointerLocked st); simpl;
      rewrite ?app_nil_r; repeat split.
  - split.
    { split; [|discriminate].
      intros Hin. apply elem_of_difference in Hin as [_ Hn].
      exfalso. apply Hn, elem_of_singleton. reflexivity. }
    split; [reflexivity|]. split; [reflexivity|]. rewrite He. simpl.
    split.
    { f_equal. unfold FPSCameraControls.removeEventListener. simpl. f_equal.
      apply leibniz_equiv. intros t. rewrite !elem_of_difference. tauto. }
    destruct (FPSCameraControls.isPointerLocked st); simpl;
      rewrite ?app_nil_r; repeat split.
Qed.

(** X14.  The constructor registers a handler on six event types, all but
    [mousemove]; [dispose] after the constructor, with or without the
    [mousemove] handler of a lock episode, leaves exactly the listeners that
    were there before the constructor, provided none of the controller's
    event types was among them. *)
Theorem listeners_round_trip (st : FPSCameraControls.State) (h : FPSCameraControls.Host)
        (Hfresh : forall type, type ∈ FPSCameraControls.eventTypes ->
                               type ∉ FPSCameraControls.listeners h) :
  (forall type,
      type ∈ FPSCameraControls.listeners (FPSCameraControls.setupEventListeners h) <->
      type ∈ FPSCameraControls.listeners h \/
      (type ∈ FPSCameraControls.eventTypes /\ type <> "mousemove"%string)) /\
  FPSCameraControls.listeners
    (snd (FPSCameraControls.dispose st (FPSCameraControls.setupEventListeners h)))
  = FPSCameraControls.listeners h /\
  FPSCameraControls.listeners
    (snd (FPSCameraControls.dispose st
            (FPSCameraControls.addEventListener "mousemove"
               (FPSCameraControls.setupEventListeners h))))
  = FPSCameraControls.listeners h.
Proof.
  assert (Hset : forall type,
             type ∈ FPSCameraControls.listeners (FPSCameraControls.setupEventListeners h) <->
             type ∈ FPSCameraControls.listeners h \/
             (type ∈ FPSCameraControls.eventTypes /\ type <> "mousemove"%string)).
  { intros type. unfold FPSCameraControls.setupEventListeners,
      FPSCameraControls.addEventListener, FPSCameraControls.eventTypes. simpl.
    rewrite !elem_of_union, !elem_of_singleton, !elem_of_cons, elem_of_nil.
    split.
    - intros [->|[->|[->|[->|[->|[->|H]]]]]]; try (right; split; [tauto | discriminate]).
      left. exact H.
    - intros [H|[[->|[->|[->|[->|[->|[->|[->|[]]]]]]]] Hne]]; tauto. }
  assert (Hl : forall (b : bool) (x : FPSCameraControls.Host),
             FPSCameraControls.listeners
               (if b then FPSCameraControls.exitPointerLock x else x)
             = FPSCameraControls.listeners x) by (intros [] x; reflexivity).
  assert (Hdisp : forall x : FPSCameraControls.Host,
             (forall type, type ∈ FPSCameraControls.listeners h ->
                           type ∈ FPSCameraControls.listeners x) ->
             (forall type, type ∈ FPSCameraControls.listeners x ->
                type ∈ FPSCameraControls.listeners h \/ type ∈ FPSCameraControls.eventTypes) ->
             FPSCameraControls.listeners (snd (FPSCameraControls.dispose st x))
             = FPSCameraControls.listeners h).
  { intros x Hsub Hsup. unfold FPSCameraControls.dispose. cbn [snd]. rewrite Hl. simpl.
    apply leibniz_equiv. intros type.
    rewrite !elem_of_difference, !elem_of_singleton.
    pose proof (Hfresh type) as Hf. pose proof (Hsub type) as H1.
    pose proof (Hsup type) as H2.
    unfold FPSCameraControls.eventTypes in Hf, H2.
    rewrite !elem_of_cons, elem_of_nil in Hf, H2.
    split.
    - intros H. tauto.
    - intros H. repeat split; try tauto; intros ->; apply Hf; tauto. }
  split; [exact Hset|]. split.
  - apply Hdisp.
    + intros type H. apply Hset. left. exact H.
    + intros type H. apply Hset in H. tauto.
  - apply Hdisp.
    + intros type H. unfold FPSCameraControls.addEventListener. simpl.
      apply elem_of_union_r. apply Hset. left. exact H.
    + intros type H. unfold FPSCameraControls.addEventListener in H. simpl in H.
      apply elem_of_union in H as [H|H].
      * apply elem_of_singleton in H. subst. right.
        unfold FPSCameraControls.eventTypes. rewrite !elem_of_cons. tauto.
      * apply Hset in H. tauto.
Qed.

Lemma listeners_round_trip_witness :
  (forall type, type ∈ FPSCameraControls.eventTypes ->
                type ∉ FPSCameraControls.listeners
                         {| FPSCameraControls.pointerLockElement := None;
                            FPSCameraControls.listeners := ∅;
                            FPSCameraControls.calls := [] |}) /\
  FPSCameraControls.listeners
    (snd (FPSCameraControls.dispose FPSCameraControls.initial FPSCameraControls.initialHost))
  = ∅.
Proof.
  assert (H : forall type, type ∈ FPSCameraControls.eventTypes ->
                type ∉ FPSCameraControls.listeners
                         {| FPSCameraControls.pointerLockElement := None;
                            FPSCameraControls.listeners := ∅;
                            FPSCameraControls.calls := [] |})
    by (intros type _; simpl; apply not_elem_of_empty).
  split; [exact H|].
  exact (proj1 (proj2 (listeners_round_trip FPSCameraControls.initial _ H))).
Defined.

(** X15.  A key is held from its [keydown] to its [keyup]: after
    [onKeyDown] the code reads as held, after a following [onKeyUp] as not
    held, and a code that was never pressed reads as not held.  An event
    for one code leaves every other code as it was, and keys stay held
    across [update] and [onMouseMove]. *)
Theorem keys_are_held_until_released (st : FPSCameraControls.State) (code other : string)
        (Hother : code <> other) :
  FPSCameraControls.held (FPSCameraControls.onKeyDown st code) code = true /\
  FPSCameraControls.held
    (FPSCameraControls.onKeyUp (FPSCameraControls.onKeyDown st code) code) code = false /\
  FPSCameraControls.held (FPSCameraControls.onKeyDown st code) other
    = FPSCameraControls.held st other /\
  FPSCameraControls.held (FPSCameraControls.onKeyUp st code) other
    = FPSCameraControls.held st other /\
  FPSCameraControls.held FPSCameraControls.initial code = false /\
  FPSCameraControls.keys (FPSCameraControls.update st) = FPSCameraControls.keys st /\
  (forall dx dy,
      FPSCameraControls.keys (FPSCameraControls.onMouseMove st dx dy)
      = FPSCameraControls.keys st).
Proof.
  unfold FPSCameraControls.held, FPSCameraControls.onKeyDown, FPSCameraControls.onKeyUp.
  simpl. rewrite !lookup_insert_eq, !lookup_insert_ne by exact Hother.
  rewrite lookup_empty.
  repeat split.
  - unfold FPSCameraControls.update. destruct (FPSCameraControls.isPointerLocked st);
      reflexivity.
  - intros dx dy. unfold FPSCameraControls.onMouseMove.
    destruct (FPSCameraControls.isPointerLocked st); reflexivity.
Qed.

Lemma keys_are_held_until_released_witness :
  "KeyW"%string <> "KeyS"%string /\
  FPSCameraControls.held
    (FPSCameraControls.onKeyDown FPSCameraControls.initial "KeyW") "KeyS"
  = FPSCameraControls.held FPSCameraControls.initial "KeyS".
Proof.
  assert (H : "KeyW"%string <> "KeyS"%string) by discriminate.
  split; [exact H|].
  exact (proj1 (proj2 (proj2 (keys_are_held_until_released
                                FPSCameraControls.initial "KeyW" "KeyS" H)))).
Defined.

Section LookOrder.
Import Three FPSCameraControls.
Open Scope R_scope.

Lemma sumX_Permutation (ds ds' : list (R * R)) :
  Permutation ds ds' -> sumX ds = sumX ds'.
Proof.
  induction 1; simpl; lra.
Qed.

Lemma clampPitch_low (p : R) : p <= - PI / 2 -> clampPitch p = - PI / 2.
Proof.
  intros H. pose proof PI_RGT_0. unfold clampPitch.
  rewrite Rmin_right by lra. apply Rmax_left. exact H.
Qed.

Lemma clampPitch_high (p : R) : PI / 2 <= p -> clampPitch p = PI / 2.
Proof.
  intros H. pose proof PI_RGT_0. unfold clampPitch.
  rewrite Rmin_left by exact H. apply Rmax_right. lra.
Qed.

End LookOrder.

(** C4, as the specification states it, fails for motions of mixed sign: a
    sequence whose pitch-driving input sums to -2 PI, a motion down by 3 PI
    and then one up by PI, ends looking straight up, at [PI/2]. *)
Lemma summed_pitch_input_ends_looking_up :
  FPSCameraControls.isPointerLocked FPSCameraControls.atEastWall = true /\
  (- (FPSCameraControls.sumY [(0, 300 * PI); (0, - (100 * PI))]
      * FPSCameraControls.sensitivity) = - (2 * PI))%R /\
  FPSCameraControls.pitch
    (FPSCameraControls.look FPSCameraControls.atEastWall
       [(0, 300 * PI); (0, - (100 * PI))]%R) = (PI / 2)%R /\
  (PI / 2 <> - PI / 2)%R.
Proof.
  pose proof PI_RGT_0 as Hpi.
  split; [reflexivity|]. split; [|split; [|lra]].
  - rewrite sensitivity_value. unfold FPSCameraControls.sumY. simpl. lra.
  - unfold FPSCameraControls.look. cbn [fold_left fst snd].
    destruct (onMouseMove_locked FPSCameraControls.atEastWall 0 (300 * PI) eq_refl)
      as (Hp1 & _ & Hl1 & _).
    destruct (onMouseMove_locked _ 0 (- (100 * PI)) Hl1) as (Hp2 & _).
    rewrite Hp2, Hp1, sensitivity_value.
    change (FPSCameraControls.pitch FPSCameraControls.atEastWall) with 0%R.
    rewrite (clampPitch_low (0 - 300 * PI * 0.01)) by lra.
    apply clampPitch_high. lra.
Qed.

(** X16.  While the pointer is locked the yaw a sequence of pointer motions
    leaves does not depend on their order, but the pitch does: from any
    pitch in range, a motion that lowers the pitch by PI followed by one
    that raises it by PI ends looking straight up, and the same two motions
    in the other order end looking straight down. *)
Theorem look_order_matters_for_pitch_only
        (st : FPSCameraControls.State) (ds ds' : list (R * R))
        (Hlocked : FPSCameraControls.isPointerLocked st = true)
        (Hperm : Permutation ds ds')
        (Hpitch : (- PI / 2 <= FPSCameraControls.pitch st <= PI / 2)%R) :
  FPSCameraControls.yaw (FPSCameraControls.look st ds)
    = FPSCameraControls.yaw (FPSCameraControls.look st ds') /\
  FPSCameraControls.pitch
    (FPSCameraControls.look st [(0, 100 * PI); (0, - (100 * PI))]%R) = (PI / 2)%R /\
  FPSCameraControls.pitch
    (FPSCameraControls.look st [(0, - (100 * PI)); (0, 100 * PI)]%R) = (- PI / 2)%R.
Proof.
  pose proof PI_RGT_0 as Hpi.
  split; [rewrite !look_yaw by exact Hlocked; rewrite (sumX_Permutation ds ds' Hperm);
          reflexivity|].
  unfold FPSCameraControls.look. cbn [fold_left fst snd].
  split.
  - destruct (onMouseMove_locked st 0 (100 * PI) Hlocked) as (Hp1 & _ & Hl1 & _).
    destruct (onMouseMove_locked _ 0 (- (100 * PI)) Hl1) as (Hp2 & _).
    rewrite Hp2, Hp1, sensitivity_value.
    rewrite (clampPitch_low (FPSCameraControls.pitch st - 100 * PI * 0.01)) by lra.
    apply clampPitch_high. lra.
  - destruct (onMouseMove_locked st 0 (- (100 * PI)) Hlocked) as (Hp1 & _ & Hl1 & _).
    destruct (onMouseMove_locked _ 0 (100 * PI) Hl1) as (Hp2 & _).
    rewrite Hp2, Hp1, sensitivity_value.
    rewrite (clampPitch_high (FPSCameraControls.pitch st - - (100 * PI) * 0.01)) by lra.
    apply clampPitch_low. lra.
Qed.

Lemma look_order_matters_for_pitch_only_witness :
  FPSCameraControls.isPointerLocked FPSCameraControls.atEastWall = true /\
  Permutation [(1, 2); (3, 4)]%R [(3, 4); (1, 2)]%R /\
  (- PI / 2 <= FPSCameraControls.pitch FPSCameraControls.atEastWall <= PI / 2)%R /\
  FPSCameraControls.yaw (FPSCameraControls.look FPSCameraControls.atEastWall [(1, 2); (3, 4)]%R)
  = FPSCameraControls.yaw
      (FPSCameraControls.look FPSCameraControls.atEastWall [(3, 4); (1, 2)]%R).
Proof.
  assert (Hp : Permutation [(1, 2); (3, 4)]%R [(3, 4); (1, 2)]%R) by apply perm_swap.
  assert (Hr : (- PI / 2 <= FPSCameraControls.pitch FPSCameraControls.atEastWall
                <= PI / 2)%R) by (simpl; pose proof PI_RGT_0; lra).
  split; [reflexivity|]. split; [exact Hp|]. split; [exact Hr|].
  exact (proj1 (look_order_matters_for_pitch_only FPSCameraControls.atEastWall
                  _ _ eq_refl Hp Hr)).
Defined.

(** ** The render loop *)

Section RenderLoop.
Import App.
Open Scope Q_scope.

Lemma ticks_succ (n : nat) :
  forall st, FPSCameraControls.ticks (S n) st
             = FPSCameraControls.update (FPSCameraControls.ticks n st).
Proof.
  induction n as [|n IH]; intros st; [reflexivity|].
  change (FPSCameraControls.ticks (S (S n)) st)
    with (FPSCameraControls.ticks (S n) (FPSCameraControls.update st)).
  rewrite IH. reflexivity.
Qed.

Lemma animate_paced gap origin c0 (l : Loop) (id : nat) (now : Q) :
  paced gap origin c0 l -> paced gap origin c0 (animate l id now).
Proof.
  intros (Hs & Hl & Hi & Hc). unfold animate.
  destruct (isRunning l); cbn [negb]; [|repeat split; assumption].
  destruct (Qle_bool _ _) eqn:Hq; [|repeat split; assumption].
  apply Qle_bool_iff in Hq. rewrite Hi, Hl in Hq.
  unfold paced. cbn [rendered lastTime frameInterval fpsControls length].
  split; [split; [exact Hq | exact Hs]|].
  split; [reflexivity|]. split; [exact Hi|].
  rewrite ticks_succ, Hc. reflexivity.
Qed.

Lemma frames_paced gap origin c0 (fs : list (nat * Q)) :
  forall l, paced gap origin c0 l -> paced gap origin c0 (frames l fs).
Proof.
  induction fs as [|f fs IH]; intros l Hl; [exact Hl|].
  apply IH, animate_paced, Hl.
Qed.

Lemma frames_length (fs : list (nat * Q)) :
  forall l, (length (rendered (frames l fs)) <= length (rendered l) + length fs)%nat.
Proof.
  induction fs as [|f fs IH]; intros l; simpl; [lia|].
  eapply Nat.le_trans; [apply IH|].
  unfold animate. destruct (isRunning l); simpl; [|lia].
  destruct (Qle_bool _ _); simpl; lia.
Qed.

End RenderLoop.

(** X17.  The render loop caps the frame rate: however the animation frames
    are timed, a frame is rendered only when at least [frameInterval] ms
    have passed since the last rendered one (or since [lastTime] for the
    first), the controller is updated exactly once per rendered frame, and
    no more frames are rendered than animation frames arrive. *)
Theorem frame_rate_is_capped (l : App.Loop) (fs : list (nat * Q))
        (Hnone : App.rendered l = []) :
  let l' := App.frames l fs in
  App.spaced (App.frameInterval l) (App.lastTime l) (App.rendered l') /\
  App.fpsControls l'
    = FPSCameraControls.ticks (length (App.rendered l')) (App.fpsControls l) /\
  (length (App.rendered l') <= length fs)%nat /\
  App.frameInterval l' = App.frameInterval l.
Proof.
  intros l'. subst l'.
  assert (H0 : App.paced (App.frameInterval l) (App.lastTime l) (App.fpsControls l) l).
  { unfold App.paced. rewrite Hnone. simpl. repeat split. }
  destruct (frames_paced _ _ _ fs l H0) as (Hs & _ & Hi & Hc).
  pose proof (frames_length fs l) as Hlen. rewrite Hnone in Hlen. simpl in Hlen.
  repeat split; assumption.
Qed.

Lemma frame_rate_is_capped_witness :
  App.rendered App.freshLoop = [] /\
  App.spaced (App.frameInterval App.freshLoop) (App.lastTime App.freshLoop)
    (App.rendered (App.frames App.freshLoop [(1%nat, 10%Q); (2%nat, 20%Q); (3%nat, 40%Q)])).
Proof.
  split; [reflexivity|].
  exact (proj1 (frame_rate_is_capped App.freshLoop
                  [(1%nat, 10%Q); (2%nat, 20%Q); (3%nat, 40%Q)] eq_refl)).
Defined.

Section HalfRate.
Import App.
Open Scope Q_scope.


Lemma animate_early (l : Loop) (id : nat) (now : Q) :
  isRunning l = true -> now - lastTime l < frameInterval l ->
  animate l id now
  = {| isRunning := true; animationId := Some id; lastTime := lastTime l;
       frameInterval := frameInterval l; fpsControls := fpsControls l;
       rendered := rendered l |}.
Proof.
  intros Hrun Hlt. unfold animate. rewrite Hrun. cbn [negb].
  destruct (Qle_bool _ _) eqn:E; [|reflexivity].
  apply Qle_bool_iff in E. lra.
Qed.





End HalfRate.



(** X19.  A stopped loop is inert: after [stop()] no animation frame
    updates the controller or renders, whatever its time, and a pending
    frame's handle (other than 0) is forgotten.  [start()] on a
    loop that already runs changes nothing, and on a stopped loop it makes
    the loop run with [lastTime] at the time of the call. *)
Theorem stopped_loop_is_inert (l : App.Loop) (fs : list (nat * Q)) (id : nat) (now now' : Q) :
  App.frames (App.stop l) fs = App.stop l /\
  App.fpsControls (App.stop l) = App.fpsControls l /\
  (App.animationId l <> Some 0%nat -> App.animationId (App.stop l) = None) /\
  (App.isRunning l = true -> App.start l id now now' = l) /\
  (App.isRunning l = false ->
   App.isRunning (App.start l id now now') = true /\
   ((now' - now < App.frameInterval l)%Q ->
    App.lastTime (App.start l id now now') = now /\
    App.rendered (App.start l id now now') = App.rendered l)).
Proof.
  split; [|split; [reflexivity|split; [|split]]].
  - induction fs as [|f fs IH]; [reflexivity|]. simpl. exact IH.
  - intros H. unfold App.stop. simpl.
    destruct (App.animationId l) as [[|n]|]; [congruence | reflexivity | reflexivity].
  - intros H. unfold App.start. rewrite H. reflexivity.
  - intros H. unfold App.start. rewrite H. split.
    + unfold App.animate. simpl. destruct (Qle_bool _ _); reflexivity.
    + intros Hlt. rewrite animate_early; [split; reflexivity | reflexivity | exact Hlt].
Qed.

Lemma stopped_loop_is_inert_witness :
  App.isRunning App.freshLoop = true /\
  App.start App.freshLoop 1 5 6 = App.freshLoop.
Proof.
  split; [reflexivity|].
  exact (proj1 (proj2 (proj2 (proj2 (stopped_loop_is_inert App.freshLoop [] 1 5 6))))
               eq_refl).
Defined.



(** ** The performance monitor and the video of a television *)

(** X21.  [PerformanceMonitor.update] counts the frame; until 1000 ms have
    passed since the window opened it changes nothing else.  When they have,
    it reports the rounded rate of the window, which is non-negative and
    never above the number of frames counted, and a mean frame time whose
    product with that number is the window's length; then it opens a new
    window at the current time with the count at 0. *)
Theorem fps_window_is_reported (st : PerformanceMonitor.State) (now : Q)
        (Hcount : (0 <= PerformanceMonitor.frameCount st)%Z) :
  let st' := PerformanceMonitor.update st now in
  let n := (PerformanceMonitor.frameCount st + 1)%Z in
  ((now - PerformanceMonitor.lastTime st < 1000)%Q ->
   PerformanceMonitor.frameCount st' = n /\
   PerformanceMonitor.fps st' = PerformanceMonitor.fps st /\
   PerformanceMonitor.frameTime st' = PerformanceMonitor.frameTime st /\
   PerformanceMonitor.lastTime st' = PerformanceMonitor.lastTime st) /\
  ((1000 <= now - PerformanceMonitor.lastTime st)%Q ->
   PerformanceMonitor.frameCount st' = 0%Z /\
   PerformanceMonitor.lastTime st' = now /\
   (0 <= PerformanceMonitor.fps st' <= n)%Z /\
   Qeq (PerformanceMonitor.frameTime st' * inject_Z n)
       (now - PerformanceMonitor.lastTime st)).
Proof.
  intros st' n. subst st' n. unfold PerformanceMonitor.update. split.
  - intros Hlt. destruct (Qle_bool _ _) eqn:E; [|repeat split].
    apply Qle_bool_iff in E. lra.
  - intros Hge. pose proof Hge as E. apply Qle_bool_iff in E. rewrite E. simpl.
    set (c := (PerformanceMonitor.frameCount st + 1)%Z).
    set (e := (now - PerformanceMonitor.lastTime st)%Q) in *.
    assert (Hc : (1 <= c)%Z) by (subst c; lia).
    assert (HcQ : (1 <= inject_Z c)%Q) by (change 1%Q with (inject_Z 1); rewrite <- Zle_Qle; exact Hc).
    assert (He : (0 < e)%Q) by lra.
    assert (Hq0 : (0 <= inject_Z c * 1000 / e)%Q).
    { apply Qle_shift_div_l; [exact He|]. nra. }
    assert (Hq1 : (inject_Z c * 1000 / e <= inject_Z c)%Q).
    { apply Qle_shift_div_r; [exact He|]. nra. }
    split; [reflexivity|]. split; [reflexivity|]. split.
    + unfold PerformanceMonitor.round. split.
      * change 0%Z with (Qfloor 0). apply Qfloor_resp_le. lra.
      * assert (Hlt : (Qfloor (inject_Z c * 1000 / e + (1 # 2)) < c + 1)%Z).
        { rewrite Zlt_Qlt. eapply Qle_lt_trans; [apply Qfloor_le|].
          rewrite inject_Z_plus. change (inject_Z 1) with 1%Q. lra. }
        lia.
    + field. intros H0. rewrite H0 in HcQ. lra.
Qed.

Lemma fps_window_is_reported_witness :
  (0 <= PerformanceMonitor.frameCount PerformanceMonitor.initial)%Z /\
  (1000 <= 1500 - PerformanceMonitor.lastTime PerformanceMonitor.initial)%Q /\
  PerformanceMonitor.frameCount
    (PerformanceMonitor.update PerformanceMonitor.initial 1500) = 0%Z.
Proof.
  assert (H0 : (0 <= PerformanceMonitor.frameCount PerformanceMonitor.initial)%Z)
    by (simpl; lia).
  assert (H1 : (1000 <= 1500 - PerformanceMonitor.lastTime PerformanceMonitor.initial)%Q)
    by (vm_compute; discriminate).
  split; [exact H0|]. split; [exact H1|].
  pose proof (fps_window_is_reported PerformanceMonitor.initial 1500 H0) as H.
  cbv zeta in H. exact (proj1 (proj2 H H1)).
Defined.

Section VideoFacts.
Import Video.

Lemma video_invariant (es : list Event) :
  isPlaying (run es) = true -> map (run es) = true.
Proof.
  unfold run.
  assert (G : forall st, (isPlaying st = true -> map st = true) ->
                isPlaying (fold_left step es st) = true ->
                map (fold_left step es st) = true).
  { induction es as [|e es IH]; intros st Hst; [exact Hst|].
    simpl. apply IH.
    destruct e; simpl;
      unfold playVideo, pauseVideo, toggleVideo, forceUpdateVideoTexture,
        playVideo, pauseVideo, playRejected;
      destruct (isPlaying st) eqn:E; simpl; rewrite ?E; simpl; auto; try discriminate. }
  apply G. discriminate.
Qed.

End VideoFacts.

(** X22.  A television's video: after any sequence of calls and settled
    promises, a television that counts as playing shows the video texture on
    its screen.  [playVideo] on a playing television and [pauseVideo] on
    one that is not playing do nothing; [stopVideo] always leaves it not
    playing with the texture taken off; [toggleVideo] pauses a playing
    television and asks an idle one to play.  Until the promise of
    [play()] settles the television does not count as playing, so a second
    [playVideo] calls [play()] again. *)
Theorem video_state_is_consistent (es : list Video.Event) :
  let st := Video.run es in
  (Video.isPlaying st = true -> Video.map st = true) /\
  (Video.isPlaying st = true -> Video.playVideo st = st) /\
  (Video.isPlaying st = false -> Video.pauseVideo st = st) /\
  Video.isPlaying (Video.stopVideo st) = false /\
  Video.map (Video.stopVideo st) = false /\
  (Video.isPlaying st = true ->
   Video.toggleVideo st = Video.pauseVideo st /\
   Video.isPlaying (Video.toggleVideo st) = false) /\
  (Video.isPlaying st = false ->
   Video.toggleVideo st = Video.playVideo st /\
   Video.isPlaying (Video.playVideo st) = false /\
   Video.playCalls (Video.playVideo (Video.playVideo st)) = (Video.playCalls st + 2)%nat) /\
  Video.isPlaying (Video.dispose st) = false /\
  Video.attached (Video.dispose st) = false.
Proof.
  intros st. subst st.
  split; [apply video_invariant|].
  unfold Video.playVideo, Video.pauseVideo, Video.toggleVideo, Video.stopVideo,
    Video.dispose.
  destruct (Video.isPlaying (Video.run es)) eqn:E; simpl; rewrite ?E; simpl;
    repeat split; try discriminate; try reflexivity; try lia;
    try (destruct (Video.run es); simpl in *; subst; reflexivity).
Qed.

Lemma video_state_is_consistent_witness :
  Video.isPlaying (Video.run [Video.PlayVideo; Video.PlayResolved]) = true /\
  Video.map (Video.run [Video.PlayVideo; Video.PlayResolved]) = true.
Proof.
  split; [reflexivity|].
  exact (proj1 (video_state_is_consistent [Video.PlayVideo; Video.PlayResolved]) eq_refl).
Defined.

(** ** Leftovers of the layout and of the speed limit *)

(** X23.  A wall's loop ends either full or out of attempts: in a completed
    layout a wall that holds fewer than 10 televisions has used all 100 of
    its attempts.  This does happen: when every draw is 0 each candidate
    after the first lands on the first one, and the back wall ends with one
    television after 100 attempts. *)
Theorem underfilled_wall_used_every_attempt (rand : nat -> Q) (fuel : nat)
        (s : ExhibitionScene.Scene)
        (Hrand : ExhibitionScene.unit_draws rand) (Hfuel : (100 <= fuel)%nat) :
  (exists rs s',
      ExhibitionScene.addVintageTVWall rand ExhibitionScene.source fuel s = Ok rs s' /\
      Forall (fun r =>
                (ExhibitionScene.tvIndex (fst r) = 10%nat \/
                 ExhibitionScene.attempts (fst r) = 100%nat) /\
                ((ExhibitionScene.tvIndex (fst r) < 10)%nat ->
                 ExhibitionScene.attempts (fst r) = 100%nat /\ snd r = 100%nat)) rs) /\
  (exists r s',
      ExhibitionScene.layoutWall ExhibitionScene.zeroDraws ExhibitionScene.source 100
        (ExhibitionScene.backWall ExhibitionScene.source) ExhibitionScene.emptyScene
      = Ok r s' /\
      ExhibitionScene.tvIndex (fst r) = 1%nat /\
      ExhibitionScene.attempts (fst r) = 100%nat).
Proof.
  split.
  - pose proof (addVintageTVWall_spec rand ExhibitionScene.source Hrand fuel s Hfuel) as H.
    apply post_ok in H. destruct H as (rs & s' & Heq & Hdone & _).
    exists rs, s'. split; [exact Heq|].
    eapply Forall_impl; [exact Hdone|].
    intros r (Htrips & Hle & Htv & _ & _ & Hc & _). simpl in *.
    apply andb_false_iff in Hc.
    rewrite !Nat.ltb_ge in Hc. rewrite Htrips in *. lia.
  - eexists _, _. split; [vm_compute; reflexivity|]. split; reflexivity.
Qed.

Lemma underfilled_wall_used_every_attempt_witness :
  ExhibitionScene.unit_draws ExhibitionScene.packedDraws /\ (100 <= 100)%nat /\
  exists rs s',
    ExhibitionScene.addVintageTVWall ExhibitionScene.packedDraws ExhibitionScene.source 100
      ExhibitionScene.emptyScene = Ok rs s' /\
    Forall (fun r =>
              (ExhibitionScene.tvIndex (fst r) = 10%nat \/
               ExhibitionScene.attempts (fst r) = 100%nat) /\
              ((ExhibitionScene.tvIndex (fst r) < 10)%nat ->
               ExhibitionScene.attempts (fst r) = 100%nat /\ snd r = 100%nat)) rs.
Proof.
  split; [exact unit_draws_packed|]. split; [lia|].
  exact (proj1 (underfilled_wall_used_every_attempt ExhibitionScene.packedDraws 100
                  ExhibitionScene.emptyScene unit_draws_packed (le_n 100))).
Defined.

(** ** Walking straight on *)

Section Cruise.
Import Three FPSCameraControls.
Open Scope R_scope.

Lemma walkSpeed_low (L k : R) :
  L <= k -> L + 0.01 <= 0.08 -> (L + 0.01) * 0.95 <= walkSpeed k.
Proof.
  intros H1 H2. unfold walkSpeed, moveSpeed, maxVelocity, friction, Rmin.
  destruct (Rle_dec (k + 0.01) 0.08); lra.
Qed.

Lemma walkSpeed_nonneg (k : R) : 0 <= k -> 0 <= walkSpeed k.
Proof.
  intros H. unfold walkSpeed, moveSpeed, maxVelocity, friction, Rmin.
  destruct (Rle_dec (k + 0.01) 0.08); lra.
Qed.

Lemma walkSpeed_top (k : R) : 0.07 <= k -> walkSpeed k = 0.076.
Proof.
  intros H. unfold walkSpeed, moveSpeed, maxVelocity, friction.
  rewrite Rmin_right by lra. lra.
Qed.

Lemma walkSpeed_settled (m : nat) : Nat.iter m walkSpeed 0.076 = 0.076.
Proof.
  induction m as [|m IH]; [reflexivity|].
  simpl. rewrite IH. apply walkSpeed_top. lra.
Qed.

(** Ten ticks are enough to reach the top from any forward speed. *)
Lemma walkSpeed_iter (n : nat) (k : R) :
  0 <= k -> (10 <= n)%nat -> Nat.iter n walkSpeed k = 0.076.
Proof.
  intros Hk Hn. replace n with ((n - 10) + 10)%nat by lia.
  rewrite Nat.iter_add.
  replace (Nat.iter 10 walkSpeed k) with 0.076; [apply walkSpeed_settled|].
  symmetry. cbn [Nat.iter nat_rect].
  pose proof (walkSpeed_low 0 k Hk ltac:(lra)) as H1.
  pose proof (walkSpeed_low _ _ H1 ltac:(lra)) as H2.
  pose proof (walkSpeed_low _ _ H2 ltac:(lra)) as H3.
  pose proof (walkSpeed_low _ _ H3 ltac:(lra)) as H4.
  pose proof (walkSpeed_low _ _ H4 ltac:(lra)) as H5.
  pose proof (walkSpeed_low _ _ H5 ltac:(lra)) as H6.
  pose proof (walkSpeed_low _ _ H6 ltac:(lra)) as H7.
  pose proof (walkSpeed_low _ _ H7 ltac:(lra)) as H8.
  pose proof (walkSpeed_low _ _ H8 ltac:(lra)) as H9.
  apply walkSpeed_top. lra.
Qed.

(** A tick with only the forward key down keeps the velocity along the
    forward vector. *)
Lemma forward_step (st : State) (f r : Vector3) (k : R) :
  isPointerLocked st = true ->
  movementBasis (quaternion (camera st)) = (f, r) ->
  length f = 1 ->
  onlyForward st ->
  velocity st = multiplyScalar f k ->
  0 <= k ->
  velocity (update st) = multiplyScalar f (walkSpeed k).
Proof.
  intros Hl Hb Hf Hkeys Hv Hk.
  destruct (update_locked st Hl) as (Hvel & _). rewrite Hvel.
  unfold tickVelocity, tickAcceleration. rewrite Hb, Hv. cbn [fst snd].
  unfold inputDirection.
  destruct Hkeys as (-> & -> & -> & -> & -> & ->).
  assert (Hadd : add (multiplyScalar f k) (multiplyScalar (add (vec 0 0 0) f) moveSpeed)
                 = multiplyScalar f (k + 0.01)).
  { destruct f; unfold add, multiplyScalar, moveSpeed; cbn [x y z]; f_equal; ring. }
  rewrite Hadd.
  assert (Hlen : length (multiplyScalar f (k + 0.01)) = k + 0.01)
    by (rewrite length_multiplyScalar by lra; rewrite Hf; ring).
  unfold limitVelocity, walkSpeed. rewrite Hlen. unfold maxVelocity, friction, moveSpeed.
  destruct (Rlt_dec 0.08 (k + 0.01)) as [Hgt|Hle].
  - rewrite Rmin_right by lra.
    unfold normalize, divideScalar, orOne. rewrite Hlen.
    destruct (Req_dec_T (k + 0.01) 0); [lra|].
    destruct f; unfold multiplyScalar; cbn [x y z]; f_equal; field; lra.
  - rewrite Rmin_left by lra.
    destruct f; unfold multiplyScalar; cbn [x y z]; f_equal; ring.
Qed.

Lemma forward_kept (st : State) (f r : Vector3) :
  isPointerLocked st = true ->
  movementBasis (quaternion (camera st)) = (f, r) ->
  onlyForward st ->
  isPointerLocked (update st) = true /\
  movementBasis (quaternion (camera (update st))) = (f, r) /\
  onlyForward (update st).
Proof.
  intros Hl Hb Hkeys.
  destruct (update_locked st Hl) as (_ & Hk' & Hl' & _).
  split; [exact Hl'|]. split.
  - unfold update. rewrite Hl. simpl. exact Hb.
  - unfold onlyForward, held in *. rewrite Hk'. exact Hkeys.
Qed.

Lemma ticks_forward (n : nat) :
  forall (st : State) (f r : Vector3) (k : R),
    isPointerLocked st = true ->
    movementBasis (quaternion (camera st)) = (f, r) ->
    length f = 1 ->
    onlyForward st ->
    velocity st = multiplyScalar f k ->
    0 <= k ->
    velocity (ticks n st) = multiplyScalar f (Nat.iter n walkSpeed k).
Proof.
  induction n as [|n IH]; intros st f r k Hl Hb Hf Hkeys Hv Hk.
  - exact Hv.
  - rewrite Nat.iter_succ_r. cbn [ticks].
    destruct (forward_kept st f r Hl Hb Hkeys) as (Hl' & Hb' & Hkeys').
    apply (IH (update st) f r (walkSpeed k) Hl' Hb' Hf Hkeys').
    + apply (forward_step st f r k); assumption.
    + apply walkSpeed_nonneg, Hk.
Qed.

End Cruise.

(** X24.  Walking straight on settles at the top speed.  In a reachable
    state that does not look straight up or down, with the pointer locked,
    only W down and the velocity along the forward vector (at rest, say),
    the velocity after 10 ticks or more is exactly 0.076 along the forward
    vector: the limit 0.08 times the friction.  [isMoving()] then answers
    true. *)
Theorem walking_speed_settles (es : list FPSCameraControls.Event) (k : R) (n : nat)
        (Hpitch : (- PI / 2 < FPSCameraControls.pitch (FPSCameraControls.run es) < PI / 2)%R)
        (Hlocked : FPSCameraControls.isPointerLocked (FPSCameraControls.run es) = true)
        (Hkeys : FPSCameraControls.onlyForward (FPSCameraControls.run es))
        (Hk : (0 <= k)%R)
        (Hvel : FPSCameraControls.velocity (FPSCameraControls.run es)
                = Three.multiplyScalar
                    (fst (FPSCameraControls.movementBasis
                            (Three.quaternion
                               (FPSCameraControls.camera (FPSCameraControls.run es))))) k)
        (Hn : (10 <= n)%nat) :
  let st := FPSCameraControls.ticks n (FPSCameraControls.run es) in
  let forward := fst (FPSCameraControls.movementBasis
                        (Three.quaternion
                           (FPSCameraControls.camera (FPSCameraControls.run es)))) in
  FPSCameraControls.velocity st = Three.multiplyScalar forward 0.076 /\
  Three.length (FPSCameraControls.velocity st) = 0.076%R /\
  FPSCameraControls.isMoving st = true.
Proof.
  intros st forward. subst st forward.
  pose proof (sin2_cos2 (FPSCameraControls.yaw (FPSCameraControls.run es))) as Hsc.
  unfold Rsqr in Hsc.
  revert Hvel. rewrite (run_basis es Hpitch). cbn [fst]. intros Hvel.
  assert (Hf : Three.length
                 (Three.vec (- sin (FPSCameraControls.yaw (FPSCameraControls.run es))) 0
                            (- cos (FPSCameraControls.yaw (FPSCameraControls.run es)))) = 1%R)
    by (apply length_unit_flat; nra).
  pose proof (ticks_forward n _ _ _ k Hlocked (run_basis es Hpitch) Hf Hkeys Hvel Hk) as H.
  rewrite (walkSpeed_iter n k Hk Hn) in H.
  assert (Hlen : Three.length
                   (FPSCameraControls.velocity
                      (FPSCameraControls.ticks n (FPSCameraControls.run es))) = 0.076%R)
    by (rewrite H, length_multiplyScalar by lra; rewrite Hf; ring).
  split; [exact H|]. split; [exact Hlen|].
  unfold FPSCameraControls.isMoving. rewrite Hlen.
  destruct (Rlt_dec 0.01 0.076); [reflexivity | lra].
Qed.

Lemma walking_speed_settles_witness :
  FPSCameraControls.isPointerLocked
    (FPSCameraControls.run [FPSCameraControls.PointerLockChange FPSCameraControls.lockedHost;
                            FPSCameraControls.KeyDown "KeyW"]) = true /\
  Three.length
    (FPSCameraControls.velocity
       (FPSCameraControls.ticks 10
          (FPSCameraControls.run
             [FPSCameraControls.PointerLockChange FPSCameraControls.lockedHost;
              FPSCameraControls.KeyDown "KeyW"]))) = 0.076%R.
Proof.
  set (es := [FPSCameraControls.PointerLockChange FPSCameraControls.lockedHost;
              FPSCameraControls.KeyDown "KeyW"]).
  assert (Hp : (- PI / 2 < FPSCameraControls.pitch (FPSCameraControls.run es) < PI / 2)%R)
    by (simpl; pose proof PI_RGT_0; lra).
  assert (Hl : FPSCameraControls.isPointerLocked (FPSCameraControls.run es) = true)
    by reflexivity.
  assert (Hkeys : FPSCameraControls.onlyForward (FPSCameraControls.run es))
    by (repeat split; reflexivity).
  assert (Hv : FPSCameraControls.velocity (FPSCameraControls.run es)
               = Three.multiplyScalar
                   (fst (FPSCameraControls.movementBasis
                           (Three.quaternion
                              (FPSCameraControls.camera (FPSCameraControls.run es))))) 0).
  { rewrite (run_basis es Hp). unfold Three.multiplyScalar. simpl.
    f_equal; ring. }
  split; [exact Hl|].
  exact (proj1 (proj2 (walking_speed_settles es 0 10 Hp Hl Hkeys (Rle_refl 0) Hv
                         (le_n 10)))).
Defined.

(** ** The placer on the walls of the source *)

(** X25.  On a wall that holds no television yet the placer returns the
    first anchor it samples, on its first try, for every size class and on
    either kind of wall.  Against any recorded televisions it reports no
    position exactly when each of its 50 tries sampled an anchor that
    overlaps one of them, and then it has read 100 draws.  Hence, whatever
    [Math.random] draws, every wall of the layout ends with at least one
    television. *)
Theorem empty_wall_takes_first_anchor
        (rand : nat -> Q) (fuel : nat) (side : bool) (sz : VintageTV.Size)
        (placed : list ExhibitionScene.Placed.t) (s : ExhibitionScene.Scene)
        (Hrand : ExhibitionScene.unit_draws rand) (Hfuel : (100 <= fuel)%nat) :
  let config := ExhibitionScene.sizeConfigs sz in
  let maxTries := ExhibitionScene.maxTries ExhibitionScene.source in
  maxTries = 50%nat /\
  ExhibitionScene.findPosition rand ExhibitionScene.source maxTries 0 side config [] s =
    Ok {| ExhibitionScene.foundPosition := true;
          ExhibitionScene.bestX :=
            ExhibitionScene.anchorX ExhibitionScene.source side config
              (rand (ExhibitionScene.cursor s));
          ExhibitionScene.bestY :=
            ExhibitionScene.anchorY ExhibitionScene.source side config
              (rand (S (ExhibitionScene.cursor s)));
          ExhibitionScene.tries := 0 |}
       {| ExhibitionScene.cursor := S (S (ExhibitionScene.cursor s));
          ExhibitionScene.vintageTVs := ExhibitionScene.vintageTVs s |} /\
  (exists f s',
      ExhibitionScene.findPosition rand ExhibitionScene.source maxTries 0 side config placed s
      = Ok f s' /\
      (ExhibitionScene.foundPosition f = false <->
       forall j, (j < maxTries)%nat ->
         uncurry (fun x y => ExhibitionScene.canPlace x y config placed)
           (ExhibitionScene.tryAnchor rand ExhibitionScene.source side config
              (ExhibitionScene.cursor s) j) = false) /\
      (ExhibitionScene.foundPosition f = false ->
       ExhibitionScene.tries f = maxTries /\
       ExhibitionScene.cursor s' = (ExhibitionScene.cursor s + 100)%nat)) /\
  (exists rs s',
      ExhibitionScene.addVintageTVWall rand ExhibitionScene.source fuel s = Ok rs s' /\
      Forall (fun r => (1 <= ExhibitionScene.tvIndex (fst r))%nat) rs).
Proof.
  intros config maxTries. subst config maxTries.
  change (ExhibitionScene.maxTries ExhibitionScene.source) with 50%nat.
  split; [reflexivity|]. split; [|split].
  - rewrite findPosition_S. reflexivity.
  - pose proof (findPosition_spec rand ExhibitionScene.source side
                  (ExhibitionScene.sizeConfigs sz) placed 50 0 s) as H.
    apply post_ok in H. destruct H as (f & s' & Heq & _ & Hf).
    exists f, s'. split; [exact Heq|].
    destruct (ExhibitionScene.foundPosition f).
    + destruct Hf as (i & Hi & _ & _ & Hb & Hok & _).
      split; [|discriminate]. split; [discriminate|].
      intros Hall. specialize (Hall i Hi). rewrite <- Hb in Hall.
      simpl in Hall. congruence.
    + destruct Hf as (Ht & Hc & Hall). repeat split; auto.
  - pose proof (addVintageTVWall_spec rand ExhibitionScene.source Hrand fuel s Hfuel) as H.
    apply post_ok in H. destruct H as (rs & s' & Heq & Hdone & _).
    exists rs, s'. split; [exact Heq|].
    eapply Forall_impl; [exact Hdone|].
    intros r (_ & _ & _ & _ & _ & _ & H1). apply H1; simpl; lia.
Qed.

Lemma empty_wall_takes_first_anchor_witness :
  ExhibitionScene.unit_draws ExhibitionScene.packedDraws /\ (100 <= 100)%nat /\
  exists rs s',
    ExhibitionScene.addVintageTVWall ExhibitionScene.packedDraws ExhibitionScene.source 100
      ExhibitionScene.emptyScene = Ok rs s' /\
    Forall (fun r => (1 <= ExhibitionScene.tvIndex (fst r))%nat) rs.
Proof.
  split; [exact unit_draws_packed|]. split; [lia|].
  exact (proj2 (proj2 (proj2 (empty_wall_takes_first_anchor
                                ExhibitionScene.packedDraws 100 true VintageTV.medium []
                                ExhibitionScene.emptyScene unit_draws_packed (le_n 100))))).
Defined.

(** ** The movement basis inside the pitch range *)


